(** * SES Sales Resources: the Secure Data API gateway and the LMP merge

    A shallow embedding of
      - [azure-function/SecureDataAPI/index.js]: key/role resolution, the
        static permission table and the CRUD request handler, and
      - the "LMP Database Azure Updater" of [scripts/api-key-setup.js]:
        [monthlyKey], [mergeMonthlyData] and [mergeHourlyData],
    together with the properties its specification states about them. *)

From Stdlib Require Import Floats Ascii String.
From stdpp Require Import gmap strings list fin_maps pretty sorting.

Open Scope string_scope.
Set Warnings "-register-all,-inexact-float,-clear-no-such-hyp".

(** ** JavaScript values as the two programs see them *)

Module Js.

(** A value of [JSON.parse]: what a blob holds and what a request body is.
    Numbers are IEEE doubles.  An object lists its properties in the order in
    which they are enumerated (see [obj_set] and [enumerate] below); the first
    binding of a key is the one a property read sees. *)
Inductive json : Type :=
  | JNull
  | JBool (b : bool)
  | JNum (n : float)
  | JStr (s : string)
  | JArr (items : list json)
  | JObj (props : list (string * json)).

(** [x === 0 || x !== x] on a number: the two falsy doubles, 0 and NaN. *)
Definition num_falsy (n : float) : bool :=
  (PrimFloat.eqb n 0%float || PrimFloat.is_nan n)%bool.

(** ToBoolean. *)
Definition truthy (v : json) : bool :=
  match v with
  | JNull => false
  | JBool b => b
  | JNum n => negb (num_falsy n)
  | JStr s => negb (String.eqb s "")
  | JArr _ => true
  | JObj _ => true
  end.

(** ToBoolean of a value that may be [undefined]. *)
Definition truthy_opt (v : option json) : bool :=
  match v with
  | Some v => truthy v
  | None => false
  end.

(** [Array.isArray(v)]. *)
Definition isArray (v : json) : bool :=
  match v with
  | JArr _ => true
  | _ => false
  end.

(** [typeof v === 'object']: objects, arrays and [null]. *)
Definition typeof_object (v : json) : bool :=
  match v with
  | JNull | JArr _ | JObj _ => true
  | _ => false
  end.

(** Outcome of an expression that may throw. *)
Inductive result (A : Type) : Type :=
  | Ok (a : A)
  | Throw.
Arguments Ok {A} a.
Arguments Throw {A}.

#[global] Instance result_ret : MRet result := λ A a, Ok a.
#[global] Instance result_bind : MBind result := λ A B k r,
  match r with
  | Ok a => k a
  | Throw => Throw
  end.

Fixpoint assoc (k : string) (ps : list (string * json)) : option json :=
  match ps with
  | [] => None
  | (k', v) :: ps' => if String.eqb k' k then Some v else assoc k ps'
  end.

(** *** Property order

    [JSON.stringify], the spread and [Object.entries] visit the own
    properties of an object array indices first, in ascending order, then the
    other keys in order of creation. *)

Definition digit (c : ascii) : option N :=
  let n := N_of_ascii c in
  if (N.leb 48 n && N.leb n 57)%bool then Some (n - 48)%N else None.

Fixpoint decimal (acc : N) (s : string) : option N :=
  match s with
  | EmptyString => Some acc
  | String c s' => digit c ≫= λ d, decimal (10 * acc + d)%N s'
  end.

(** The array index a key is, if it is one: the canonical decimal text of an
    integer below 2^32 - 1. *)
Definition array_index (k : string) : option N :=
  match k with
  | EmptyString => None
  | String c s' =>
      if (Ascii.eqb c "0" && negb (String.eqb s' ""))%bool then None
      else decimal 0 k ≫= λ n,
           if N.ltb n 4294967295 then Some n else None
  end.

(** A new key [k] is enumerated before the existing key [k']. *)
Definition precedes (k k' : string) : bool :=
  match array_index k, array_index k' with
  | Some n, Some n' => N.ltb n n'
  | Some _, None => true
  | None, _ => false
  end.

(** [o[k] = v] on an object under construction: an existing key keeps its
    place; a new key that is an array index goes before the keys it precedes,
    any other new key goes last. *)
Fixpoint obj_set (k : string) (v : json) (ps : list (string * json))
  : list (string * json) :=
  match ps with
  | [] => [(k, v)]
  | (k', v') :: ps' =>
      if String.eqb k' k then (k, v) :: ps'
      else if precedes k k' then (k, v) :: ps
      else (k', v') :: obj_set k v ps'
  end.

(** The properties in the order of enumeration, whatever the order they are
    listed in. *)
Definition enumerate (ps : list (string * json)) : list (string * json) :=
  fold_left (λ o p, match assoc (fst p) o with
                    | Some _ => o
                    | None => obj_set (fst p) (snd p) o
                    end) ps [].

Definition obj_remove (k : string) (ps : list (string * json))
  : list (string * json) :=
  filter (λ p, negb (String.eqb (fst p) k) = true) ps.

(** A property written with a value that may be [undefined].  Every object
    the handler builds leaves it through [JSON.stringify] (into the blob and
    into the response body), which drops the properties whose value is
    [undefined]: writing [undefined] is modelled as removing the key. *)
Definition obj_set_opt (k : string) (v : option json)
    (ps : list (string * json)) : list (string * json) :=
  match v with
  | Some v => obj_set k v ps
  | None => obj_remove k ps
  end.

(** [item.k] where [item] is known not to be [null]: an own property of an
    object, [undefined] on arrays, strings, numbers and booleans (none of the
    names read by the handler is an inherited one). *)
Definition get (item : json) (k : string) : option json :=
  match item with
  | JObj ps => assoc k ps
  | _ => None
  end.

(** [item.k] in general: reading a property of [null] throws a TypeError. *)
Definition get_prop (item : json) (k : string) : result (option json) :=
  match item with
  | JNull => Throw
  | _ => Ok (get item k)
  end.

(** [v === s] for a string [s]. *)
Definition strict_eq_str (v : option json) (s : string) : bool :=
  match v with
  | Some (JStr s') => String.eqb s' s
  | _ => false
  end.

(** Decimal text of an array index, for the keys a spread array gives. *)
Definition index_key (i : nat) : string :=
  pretty i.

Fixpoint indexed {A} (i : nat) (l : list A) : list (string * A) :=
  match l with
  | [] => []
  | x :: l' => (index_key i, x) :: indexed (S i) l'
  end.

Fixpoint chars (s : string) : list json :=
  match s with
  | EmptyString => []
  | String c s' => JStr (String c EmptyString) :: chars s'
  end.

(** The own enumerable properties [{...v}] copies: the properties of an
    object, the indexed elements of an array, the indexed characters of a
    string, nothing for the other values and for [undefined]. *)
Definition own_props (v : option json) : list (string * json) :=
  match v with
  | Some (JObj ps) => ps
  | Some (JArr l) => indexed 0 l
  | Some (JStr s) => indexed 0 (chars s)
  | _ => []
  end.

(** [{...a, ...src}] continued: copy the properties of [src] over [acc]. *)
Definition spread (acc src : list (string * json)) : list (string * json) :=
  fold_left (λ o p, obj_set (fst p) (snd p) o) src acc.

(** *** [JSON.stringify] followed by [JSON.parse] *)

(** A number [JSON.stringify] writes as a number, not as [null]. *)
Definition finite (n : float) : bool :=
  negb (PrimFloat.is_nan n || PrimFloat.is_infinity n).

(** [JSON.parse(JSON.stringify(v))]: what is read back from the text written
    for [v].  [Infinity], [-Infinity] and [NaN] are written as [null] and
    [-0] as [0]; every other number is written with the digits that read back
    as the same double; the properties of an object are written in the order
    of enumeration. *)
Fixpoint reparse (v : json) : json :=
  match v with
  | JNum n =>
      if finite n then (if PrimFloat.eqb n 0 then JNum 0 else JNum n)
      else JNull
  | JArr items => JArr (reparse <$> items)
  | JObj props => JObj (enumerate ((λ p, (fst p, reparse (snd p))) <$> props))
  | _ => v
  end.

(** [s.split(sep)] for a one-character separator. *)
Fixpoint split (sep : ascii) (s : string) : list string :=
  match s with
  | EmptyString => [EmptyString]
  | String c s' =>
      if Ascii.eqb c sep then EmptyString :: split sep s'
      else match split sep s' with
           | h :: t => String c h :: t
           | [] => [String c EmptyString]
           end
  end.

(** [l.includes(x)] on an array of strings. *)
Definition includes (l : list string) (x : string) : bool :=
  existsb (String.eqb x) l.

End Js.

(** ** azure-function/SecureDataAPI/index.js *)

Module SecureDataAPI.
Import Js.

(** The three operations the handler derives from the HTTP method. *)
Inductive operation : Type := OpRead | OpWrite | OpDelete.

Record permissions : Type := {
  perm_read : list string;
  perm_write : list string;
  perm_delete : list string
}.

Definition FILE_PERMISSIONS : list (string * permissions) :=
  [ ("admin",
     {| perm_read := ["clients.json"; "users.json"; "contracts.json";
                      "lmp-database.json"; "accounts.json";
                      "energy-profiles.json"; "activity-log.json";
                      "usage-profiles.json"; "tickets.json";
                      "widget-preferences.json"];
        perm_write := ["clients.json"; "users.json"; "contracts.json";
                       "lmp-database.json"; "accounts.json";
                       "energy-profiles.json"; "activity-log.json";
                       "usage-profiles.json"; "tickets.json";
                       "widget-preferences.json"];
        perm_delete := ["energy-profiles.json"; "tickets.json"] |});
    ("ae",
     {| perm_read := ["clients.json"; "contracts.json"; "accounts.json";
                      "energy-profiles.json"; "usage-profiles.json"];
        perm_write := ["energy-profiles.json"; "contracts.json";
                       "usage-profiles.json"];
        perm_delete := ["energy-profiles.json"] |});
    ("widget",
     {| perm_read := ["clients.json"; "accounts.json"; "energy-profiles.json";
                      "usage-profiles.json"; "widget-preferences.json";
                      "activity-log.json"];
        perm_write := ["energy-profiles.json"; "usage-profiles.json";
                       "widget-preferences.json"; "activity-log.json"];
        perm_delete := [] |});
    ("workflow",
     {| perm_read := ["lmp-database.json"];
        perm_write := ["lmp-database.json"];
        perm_delete := [] |});
    ("readonly",
     {| perm_read := ["lmp-database.json"];
        perm_write := [];
        perm_delete := [] |}) ].

(** Own-property lookup in the table. *)
Fixpoint own_entry (role : string) (t : list (string * permissions))
  : option permissions :=
  match t with
  | [] => None
  | (r, p) :: t' => if String.eqb r role then Some p else own_entry role t'
  end.

(** The names every object literal inherits from [Object.prototype]. *)
Definition object_prototype_names : list string :=
  ["constructor"; "__defineGetter__"; "__defineSetter__"; "hasOwnProperty";
   "__lookupGetter__"; "__lookupSetter__"; "isPrototypeOf";
   "propertyIsEnumerable"; "toString"; "valueOf"; "__proto__";
   "toLocaleString"].

(** What [FILE_PERMISSIONS[role]] evaluates to: a table entry, an inherited
    member of [Object.prototype] (truthy, and without a [read], [write] or
    [delete] property), or [undefined]. *)
Inductive role_slot : Type :=
  | Entry (p : permissions)
  | Inherited
  | Undefined.

Definition table_get (role : string) : role_slot :=
  match own_entry role FILE_PERMISSIONS with
  | Some p => Entry p
  | None => if includes object_prototype_names role then Inherited
            else Undefined
  end.

Definition select (op : operation) (p : permissions) : list string :=
  match op with
  | OpRead => perm_read p
  | OpWrite => perm_write p
  | OpDelete => perm_delete p
  end.

(** [getRoleFromKey]: [None] is the [null] it returns. *)
Definition getRoleFromKey (apiKey : string) : option string :=
  match split "-" apiKey with
  | p0 :: p1 :: _ => if String.eqb p0 "ses" then Some p1 else None
  | _ => None
  end.

(** [hasPermission]. *)
Definition hasPermission (apiKey filename : string) (op : operation) : bool :=
  match getRoleFromKey apiKey with
  | None => false
  | Some role =>
      if String.eqb role "" then false
      else match table_get role with
           | Undefined => false
           | Inherited => includes [] filename
           | Entry p => includes (select op p) filename
           end
  end.

(** The allow-set the table configures for a role and an operation, read off
    the table alone: empty for a role the table does not list. *)
Definition allow_set (role : string) (op : operation) : list string :=
  match own_entry role FILE_PERMISSIONS with
  | Some p => select op p
  | None => []
  end.

(** *** Blob operations

    The container is a finite map from blob names to their parsed content.
    The blob service is taken to answer every call and every blob to hold
    valid JSON (a transport failure or a parse error would throw, and the
    handler answers 500 to anything thrown).  [saveBlob] uploads the text
    [JSON.stringify] writes for the value it is given, so the container holds
    what [JSON.parse] reads back from that text. *)

(** [getBlob]: [None] is the [null] returned for a blob that does not exist;
    a blob whose content is the JSON text [null] parses to the same [null]. *)
Definition getBlob (store : gmap string json) (filename : string)
  : option json :=
  match store !! filename with
  | None => None
  | Some JNull => None
  | Some d => Some d
  end.

(** [saveBlob]: [JSON.stringify(undefined)] is [undefined], not a string, and
    [Buffer.byteLength] of it throws before anything is uploaded. *)
Definition saveBlob (store : gmap string json) (filename : string)
    (data : option json) : result (gmap string json) :=
  match data with
  | None => Throw
  | Some d => Ok (<[filename := reparse d]> store)
  end.

(** [deleteBlob]: the new container and whether the blob existed. *)
Definition deleteBlob (store : gmap string json) (filename : string)
  : gmap string json * bool :=
  match store !! filename with
  | None => (store, false)
  | Some _ => (delete filename store, true)
  end.

(** *** Requests, responses and the environment of one invocation *)

Record config : Type := {
  (** [VALID_API_KEYS] split on commas and trimmed *)
  validKeys : list string
}.

Record request : Type := {
  method : string;
  headers : gmap string string;
  params_filename : option string;
  params_id : option string;
  body : option json
}.

Record environment : Type := {
  (** [new Date().toISOString()] *)
  now : string;
  (** the value [generateId()] returns *)
  fresh_id : string
}.

(** [context.res]: the status and the value whose [JSON.stringify] text is
    the body; the CORS and content-type headers are left out. *)
Record response : Type := {
  status : nat;
  res_body : option json
}.

Definition error_body (category message : string) : option json :=
  Some (JObj [("error", JStr category); ("message", JStr message)]).

(** A string that may be [undefined] is truthy when it is a non-empty string. *)
Definition nonempty (s : option string) : option string :=
  match s with
  | Some s' => if String.eqb s' "" then None else Some s'
  | None => None
  end.

(** [req.headers['x-api-key'] || req.headers['X-API-Key']], as far as its
    truth value and, when truthy, its value go. *)
Definition presented_key (req : request) : option string :=
  match nonempty (headers req !! "x-api-key") with
  | Some k => Some k
  | None => nonempty (headers req !! "X-API-Key")
  end.

(** The operation the method maps to: anything that is neither a read nor a
    write counts as a delete. *)
Definition operation_of (m : string) : operation :=
  if String.eqb m "GET" then OpRead
  else if includes ["POST"; "PUT"; "PATCH"] m then OpWrite
  else OpDelete.

Definition operation_name (op : operation) : string :=
  match op with
  | OpRead => "read"
  | OpWrite => "write"
  | OpDelete => "delete"
  end.

(** The callback shared by [find], [findIndex] and (negated) [filter]:
    [item.id === recordId || item._id === recordId ||
     item.profileId === recordId]. *)
Definition matches (recordId : string) (item : json) : result bool :=
  a ← get_prop item "id";
  if strict_eq_str a recordId then Ok true else
  b ← get_prop item "_id";
  if strict_eq_str b recordId then Ok true else
  c ← get_prop item "profileId";
  Ok (strict_eq_str c recordId).

(** [data.find(...)]. *)
Fixpoint find (recordId : string) (data : list json)
  : result (option json) :=
  match data with
  | [] => Ok None
  | item :: rest =>
      matches recordId item ≫= λ m : bool,
      if m then Ok (Some item) else find recordId rest
  end.

(** [existingData.findIndex(...)], counting from [i]; [None] is [-1]. *)
Fixpoint findIndex_from (i : nat) (recordId : string) (data : list json)
  : result (option nat) :=
  match data with
  | [] => Ok None
  | item :: rest =>
      matches recordId item ≫= λ m : bool,
      if m then Ok (Some i) else findIndex_from (S i) recordId rest
  end.

Definition findIndex := findIndex_from 0.

(** [existingData.filter(item => item.id !== recordId && ...)]. *)
Fixpoint remove (recordId : string) (data : list json)
  : result (list json) :=
  match data with
  | [] => Ok []
  | item :: rest =>
      matches recordId item ≫= λ m : bool,
      rest' ← remove recordId rest;
      Ok (if m then rest' else item :: rest')
  end.

Definition role_json (apiKey : string) : json :=
  match getRoleFromKey apiKey with
  | Some r => JStr r
  | None => JNull
  end.

(** The record POST builds:
    [{...newData, id: newData.id || generateId(), createdAt, createdBy}]. *)
Definition created_record (env : environment) (apiKey : string)
    (newData : json) : list (string * json) :=
  let id := match get newData "id" with
            | Some v => if truthy v then v else JStr (fresh_id env)
            | None => JStr (fresh_id env)
            end in
  obj_set "createdBy" (role_json apiKey)
    (obj_set "createdAt" (JStr (now env))
       (obj_set "id" id (spread [] (own_props (Some newData))))).

(** The record PUT builds:
    [{...existing, ...updateData, id: existing.id,
      createdAt: existing.createdAt, updatedAt, updatedBy}]. *)
Definition updated_record (env : environment) (apiKey : string)
    (existing : json) (updateData : option json) : list (string * json) :=
  obj_set "updatedBy" (role_json apiKey)
    (obj_set "updatedAt" (JStr (now env))
       (obj_set_opt "createdAt" (get existing "createdAt")
          (obj_set_opt "id" (get existing "id")
             (spread (spread [] (own_props (Some existing)))
                     (own_props updateData))))).

(** *** The request handler *)

Definition respond (st : nat) (b : option json) : option response :=
  Some {| status := st; res_body := b |}.

Definition not_found (what : string) : option response :=
  respond 404 (error_body "Not Found" (what +:+ " not found.")).

Definition bad_request (message : string) : option response :=
  respond 400 (error_body "Bad Request" message).

(** GET - read operations. *)
Definition handle_get (store : gmap string json) (filename : string)
    (recordId : option string)
  : result (option response * gmap string json) :=
  match getBlob store filename with
  | None => Ok (not_found filename, store)
  | Some data =>
      match nonempty recordId, data with
      | Some id, JArr items =>
          record ← find id items;
          match record with
          | None => Ok (not_found ("Record " +:+ id), store)
          | Some r => Ok (respond 200 (Some r), store)
          end
      | _, _ => Ok (respond 200 (Some data), store)
      end
  end.

(** POST - create a record, or replace the entire file. *)
Definition handle_post (env : environment) (store : gmap string json)
    (apiKey filename : string) (newData : option json)
  : result (option response * gmap string json) :=
  match newData with
  | None => Ok (bad_request "Request body required.", store)
  | Some newData =>
      if negb (truthy newData)
      then Ok (bad_request "Request body required.", store)
      else
        let replace_file :=
          store' ← saveBlob store filename (Some newData);
          Ok (respond 201 (Some (JObj [("success", JBool true);
                                       ("message", JStr "File saved.")])),
              store') in
        if (typeof_object newData && negb (isArray newData))%bool then
          let existingData :=
            match getBlob store filename with
            | None => JArr []
            | Some d => d
            end in
          match existingData with
          | JArr items =>
              let record := JObj (created_record env apiKey newData) in
              store' ← saveBlob store filename
                         (Some (JArr (items ++ [record])%list));
              Ok (respond 201 (Some (JObj [("success", JBool true);
                                           ("message", JStr "Record created.");
                                           ("record", record)])),
                  store')
          | _ => replace_file
          end
        else replace_file
  end.

(** PUT - full file replacement (no record id) or update of one record. *)
Definition handle_put (env : environment) (store : gmap string json)
    (apiKey filename : string) (recordId : option string)
    (reqBody : option json)
  : result (option response * gmap string json) :=
  match nonempty recordId with
  | None =>
      store' ← saveBlob store filename reqBody;
      Ok (respond 200 (Some (JObj [("success", JBool true);
                                   ("message", JStr "File replaced");
                                   ("filename", JStr filename)])),
          store')
  | Some id =>
      match getBlob store filename with
      | Some (JArr items) =>
          index ← findIndex id items;
          match index with
          | None => Ok (not_found ("Record " +:+ id), store)
          | Some i =>
              match items !! i with
              | None => Throw
              | Some existing =>
                  let record :=
                    JObj (updated_record env apiKey existing reqBody) in
                  store' ← saveBlob store filename
                             (Some (JArr (<[i := record]> items)));
                  Ok (respond 200
                        (Some (JObj [("success", JBool true);
                                     ("message", JStr "Record updated.");
                                     ("record", record)])),
                      store')
              end
          end
      | _ => Ok (bad_request "File is not an array.", store)
      end
  end.

(** DELETE - remove the records with the id, or the entire file. *)
Definition handle_delete (store : gmap string json) (filename : string)
    (recordId : option string)
  : result (option response * gmap string json) :=
  match nonempty recordId with
  | Some id =>
      match getBlob store filename with
      | Some (JArr items) =>
          remove id items ≫= λ items' : list json,
          if Nat.eqb (length items') (length items)
          then Ok (not_found ("Record " +:+ id), store)
          else
            store' ← saveBlob store filename (Some (JArr items'));
            Ok (respond 200 (Some (JObj [("success", JBool true);
                                         ("message", JStr "Record deleted.")])),
                store')
      | _ => Ok (bad_request "Cannot delete record from non-array.", store)
      end
  | None =>
      let '(store', deleted) := deleteBlob store filename in
      Ok (respond (if deleted then 200 else 404)
            (Some (JObj [("success", JBool deleted);
                         ("message",
                          JStr (if deleted then "File deleted."
                                else "File not found."))])),
          store')
  end.

(** The body of the [try]: a method that is none of the four leaves
    [context.res] unset. *)
Definition dispatch (env : environment) (store : gmap string json)
    (req : request) (apiKey filename : string)
  : result (option response * gmap string json) :=
  if String.eqb (method req) "GET" then
    handle_get store filename (params_id req)
  else if String.eqb (method req) "POST" then
    handle_post env store apiKey filename (body req)
  else if String.eqb (method req) "PUT" then
    handle_put env store apiKey filename (params_id req) (body req)
  else if String.eqb (method req) "DELETE" then
    handle_delete store filename (params_id req)
  else Ok (None, store).

(** [module.exports]: the response left in [context.res] and the container
    after the invocation.  Whatever is thrown inside the [try] is answered
    with 500 (its body carries the engine's message, left out here), and is
    thrown before anything is uploaded. *)
Definition handler (cfg : config) (env : environment)
    (store : gmap string json) (req : request)
  : option response * gmap string json :=
  if String.eqb (method req) "OPTIONS" then (respond 204 None, store)
  else
    let unauthorized :=
      (respond 401 (error_body "Unauthorized" "Valid API key required."),
       store) in
    match presented_key req with
    | None => unauthorized
    | Some apiKey =>
        if negb (includes (validKeys cfg) apiKey) then unauthorized
        else
          match nonempty (params_filename req) with
          | None => (bad_request "Filename required.", store)
          | Some filename =>
              let op := operation_of (method req) in
              if negb (hasPermission apiKey filename op) then
                (respond 403
                   (error_body "Forbidden"
                      ("Your API key cannot " +:+ operation_name op +:+ " "
                         +:+ filename +:+ ".")),
                 store)
              else
                match dispatch env store req apiKey filename with
                | Ok r => r
                | Throw =>
                    (respond 500
                       (Some (JObj [("error", JStr "Server Error")])),
                     store)
                end
          end
    end.

(** The status of the response, when one was set. *)
Definition status_of (r : option response * gmap string json) : option nat :=
  status <$> fst r.

(** *** CORS

    [allowedOrigins] is [ALLOWED_ORIGINS] split on commas and trimmed. *)

(** [req.headers.origin || req.headers.Origin || '']. *)
Definition requestOrigin (req : request) : string :=
  match nonempty (headers req !! "origin") with
  | Some o => o
  | None => match nonempty (headers req !! "Origin") with
            | Some o => o
            | None => ""
            end
  end.

(** [allowedOrigins.includes(requestOrigin) ? requestOrigin
     : allowedOrigins[0] || '*'], the value of
    [Access-Control-Allow-Origin]. *)
Definition corsOrigin (allowedOrigins : list string) (req : request)
  : string :=
  if includes allowedOrigins (requestOrigin req) then requestOrigin req
  else match allowedOrigins with
       | first :: _ => if String.eqb first "" then "*" else first
       | [] => "*"
       end.

End SecureDataAPI.

(** ** scripts/api-key-setup.js: LMP Database Azure Updater, merge logic *)

Module LmpUpdater.
Import Js.

(** A monthly record, as fetched (either fetcher format) or as stored.  The
    key fields are strings, as both fetchers write them; the price fields are
    JSON numbers or missing. *)
Record monthly_record : Type := {
  iso : string;
  zone : string;
  zone_id : option string;
  year : string;
  month : string;
  avg_da_lmp : option float;
  lmp : option float;
  min_price : option float;
  max_price : option float;
  record_count : option float
}.

(** An hourly record [{dt, p, z}]. *)
Record hourly_record : Type := {
  dt : string;
  p : float;
  z : string
}.

(** The part of [lmp-database.json] the merge reads and writes: [data] and
    [hourly], the latter possibly missing from an older file. *)
Record database : Type := {
  data : gmap string (list monthly_record);
  hourly : option (gmap string (gmap string (list hourly_record)))
}.

(** [fetched-lmp-hourly.json], as far as the merge reads it. *)
Record hourly_file : Type := {
  hourly_data : option (gmap string (gmap string (list hourly_record)))
}.

Record monthly_stats : Type := {
  added : nat;
  updated : nat;
  unchanged : nat
}.

Record hourly_stats : Type := {
  addedMonths : nat;
  updatedMonths : nat;
  totalRecords : nat;
  skippedMonths : nat
}.

(** [a || b] on numbers, [a] possibly missing. *)
Definition num_or (a : option float) (b : float) : float :=
  match a with
  | Some x => if num_falsy x then b else x
  | None => b
  end.

(** [a || b] on strings, [a] possibly missing. *)
Definition str_or (a : option string) (b : string) : string :=
  match a with
  | Some x => if String.eqb x "" then b else x
  | None => b
  end.

(** [s.padStart(n, '0')]. *)
Definition padStart0 (n : nat) (s : string) : string :=
  String.concat "" (replicate (n - String.length s) "0") +:+ s.

(** [monthlyKey]. *)
Definition monthlyKey (r : monthly_record) : string :=
  iso r +:+ "_" +:+ zone r +:+ "_" +:+ year r +:+ "_" +:+ month r.

(** The [normalized] object of [mergeMonthlyData].  [toString] is the
    identity on a string, and [parseFloat] is the identity on what its
    argument can be here, a truthy number or the literal 0. *)
Definition normalize (record : monthly_record) : monthly_record :=
  {| iso := iso record;
     zone := zone record;
     zone_id := Some (str_or (zone_id record) (zone record));
     year := year record;
     month := padStart0 2 (month record);
     avg_da_lmp := Some (num_or (avg_da_lmp record) (num_or (lmp record) 0));
     lmp := None;
     min_price :=
       Some (num_or (min_price record) (num_or (avg_da_lmp record) 0));
     max_price :=
       Some (num_or (max_price record) (num_or (avg_da_lmp record) 0));
     record_count := Some (num_or (record_count record) 0) |}.

(** [l.findIndex(r => monthlyKey(r) === key)], counting from [i]. *)
Fixpoint findIndexKey_from (i : nat) (key : string)
    (l : list monthly_record) : option nat :=
  match l with
  | [] => None
  | r :: l' =>
      if String.eqb (monthlyKey r) key then Some i
      else findIndexKey_from (S i) key l'
  end.

Definition findIndexKey := findIndexKey_from 0.

(** [x > 0] where [x] may be [undefined]. *)
Definition positive (x : option float) : bool :=
  match x with
  | Some x => PrimFloat.ltb 0 x
  | None => false
  end.

(** [Math.abs((existing.avg_da_lmp || 0) - n) > 0.0001]. *)
Definition differs (existing : option float) (n : float) : bool :=
  PrimFloat.ltb 0.0001 (PrimFloat.abs (PrimFloat.sub (num_or existing 0) n)).

Definition bump_added (s : monthly_stats) : monthly_stats :=
  {| added := S (added s); updated := updated s; unchanged := unchanged s |}.
Definition bump_updated (s : monthly_stats) : monthly_stats :=
  {| added := added s; updated := S (updated s); unchanged := unchanged s |}.
Definition bump_unchanged (s : monthly_stats) : monthly_stats :=
  {| added := added s; updated := updated s; unchanged := S (unchanged s) |}.

(** One turn of the loop over [newRecords].  [database.data[iso]] is read
    as an own property, which is what the read gives for every ISO that does
    not name a member of [Object.prototype]; for one that does and has no
    list of its own the code finds the inherited member, creates no list and
    throws at [findIndex].  The properties of the merge are stated for ISOs
    that name none. *)
Definition merge_record
    (st : gmap string (list monthly_record) * monthly_stats)
    (record : monthly_record)
  : gmap string (list monthly_record) * monthly_stats :=
  let '(d, s) := st in
  let d := match d !! iso record with
           | None => <[iso record := []]> d
           | Some _ => d
           end in
  let l := default [] (d !! iso record) in
  let key := monthlyKey record in
  let idx := findIndexKey key l in
  let normalized := normalize record in
  let n := default 0%float (avg_da_lmp normalized) in
  match idx with
  | None => (<[iso record := (l ++ [normalized])%list]> d, bump_added s)
  | Some i =>
      let existing := l !! i ≫= avg_da_lmp in
      if (PrimFloat.eqb n 0 && positive existing)%bool
      then (d, bump_unchanged s)
      else if differs existing n
      then (<[iso record := <[i := normalized]> l]> d, bump_updated s)
      else (d, bump_unchanged s)
  end.

Section Sorting.

(** [String.prototype.localeCompare]: the host's collation, a parameter. *)
Variable localeCompare : string → string → Z.

(** [x || y] on the numbers a comparison returns. *)
Definition or_else (x y : Z) : Z := if Z.eqb x 0 then y else x.

(** The comparator of the final sort ([a.zone || ''] is [a.zone] on a
    string, and likewise for the year and the month). *)
Definition compare_records (a b : monthly_record) : Z :=
  or_else (localeCompare (zone a) (zone b))
    (or_else (localeCompare (year a) (year b))
       (localeCompare (month a) (month b))).

(** [Array.prototype.sort] is stable; it is modelled by the stable insertion
    sort, with which it agrees on every consistent comparator. *)
Fixpoint insert_sorted (x : monthly_record) (l : list monthly_record)
  : list monthly_record :=
  match l with
  | [] => [x]
  | y :: l' =>
      if Z.ltb 0 (compare_records x y) then y :: insert_sorted x l'
      else x :: l
  end.

Definition sort (l : list monthly_record) : list monthly_record :=
  foldr insert_sorted [] l.

(** [mergeMonthlyData]: the database after the call and the counts it
    returns. *)
Definition mergeMonthlyData (db : database)
    (newRecords : list monthly_record) : database * monthly_stats :=
  let '(d, s) :=
    fold_left merge_record newRecords
      (data db, {| added := 0; updated := 0; unchanged := 0 |}) in
  ({| data := sort <$> d; hourly := hourly db |}, s).

End Sorting.

(** [records.some(r => r.p !== 0)]. *)
Definition hasNonZero (records : list hourly_record) : bool :=
  existsb (λ r, negb (PrimFloat.eqb (p r) 0)) records.

(** One turn of the inner loop of [mergeHourlyData], over the blocks of one
    ISO.  [database.hourly[iso][yearMonth]] is read as an own property, which
    is what the read gives for every year-month that does not name a member
    of [Object.prototype]. *)
Definition merge_block (iso : string) (yearMonth : string)
    (records : list hourly_record)
    (st : gmap string (gmap string (list hourly_record)) * hourly_stats)
  : gmap string (gmap string (list hourly_record)) * hourly_stats :=
  let '(h, s) := st in
  match records with
  | [] => (h, s)
  | _ :: _ =>
      if negb (hasNonZero records) then
        (h, {| addedMonths := addedMonths s;
               updatedMonths := updatedMonths s;
               totalRecords := totalRecords s;
               skippedMonths := S (skippedMonths s) |})
      else
        let months := default ∅ (h !! iso) in
        let isNew := bool_decide (months !! yearMonth = None) in
        (<[iso := <[yearMonth := records]> months]> h,
         {| addedMonths := if isNew then S (addedMonths s)
                           else addedMonths s;
            updatedMonths := if isNew then updatedMonths s
                             else S (updatedMonths s);
            totalRecords := totalRecords s + length records;
            skippedMonths := skippedMonths s |})
  end.

(** One turn of the outer loop, over the ISOs of the payload.
    [database.hourly[iso]] is read as an own property, which is what the
    read gives for every ISO that does not name a member of
    [Object.prototype]; for one that does and has no entry of its own the
    code creates none and writes the blocks onto the inherited member. *)
Definition merge_iso (iso : string)
    (monthData : gmap string (list hourly_record))
    (st : gmap string (gmap string (list hourly_record)) * hourly_stats)
  : gmap string (gmap string (list hourly_record)) * hourly_stats :=
  let '(h, s) := st in
  let h := match h !! iso with
           | None => <[iso := ∅]> h
           | Some _ => h
           end in
  map_fold (merge_block iso) (h, s) monthData.

Definition no_hourly_stats : hourly_stats :=
  {| addedMonths := 0; updatedMonths := 0; totalRecords := 0;
     skippedMonths := 0 |}.

(** [mergeHourlyData]; [None] for [newHourlyData] is [null]. *)
Definition mergeHourlyData (db : database)
    (newHourlyData : option hourly_file) : database * hourly_stats :=
  match newHourlyData ≫= hourly_data with
  | None => (db, no_hourly_stats)
  | Some incoming =>
      let h := default ∅ (hourly db) in
      let '(h', s) := map_fold merge_iso (h, no_hourly_stats) incoming in
      ({| data := data db; hourly := Some h' |}, s)
  end.

(** The block stored under an (iso, year-month) key, if any. *)
Definition block (h : gmap string (gmap string (list hourly_record)))
    (iso yearMonth : string) : option (list hourly_record) :=
  h !! iso ≫= (.!! yearMonth).

(** *** Storage stats and the merge phase of [main] *)

Record record_counts : Type := {
  count_monthly : nat;
  count_hourly : nat
}.

(** [countRecords]. *)
Definition countRecords (db : database) : record_counts :=
  {| count_monthly := map_fold (λ _ l n, n + length l) 0 (data db);
     count_hourly :=
       map_fold (λ _ months n,
                   map_fold (λ _ records n, n + length records) n months)
                0 (default ∅ (hourly db)) |}.

(** [fetched-lmp-data.json], as far as [main] uses it for the merge. *)
Record monthly_file : Type := {
  records : list monthly_record;
  dateRange : string * string
}.

(** [database.meta] as [main] rewrites it. *)
Record meta : Type := {
  lastUpdate : string;
  lastFetchRange : string * string;
  storage : string;
  version : string;
  source : string;
  hasHourlyData : bool;
  totalMonthlyRecords : nat;
  totalHourlyRecords : nat
}.

(** What the merge phase of [main] leaves: the database in memory, its new
    [meta], the two statistics and [hasChanges], on which the save
    depends. *)
Record merge_outcome : Type := {
  merged : database;
  merged_meta : meta;
  mStats : monthly_stats;
  hStats : hourly_stats;
  hasChanges : bool
}.

(** The database [main] starts from when the stored one is missing, has no
    [data] or could not be fetched. *)
Definition new_database : database :=
  {| data := ∅; hourly := Some ∅ |}.

(** [main], from the loaded files and the fetched database ([None] when
    there is none to use) to the decision to save.  [now] is
    [new Date().toISOString()]; reading the files, the two requests and the
    exits on a missing key or file are outside. *)
Definition merge_phase (localeCompare : string → string → Z) (now : string)
    (fetched : option database) (monthlyData : monthly_file)
    (hourlyData : option hourly_file) : merge_outcome :=
  let database := default new_database fetched in
  let '(database, mStats) :=
    mergeMonthlyData localeCompare database (records monthlyData) in
  let '(database, hStats) :=
    match hourlyData with
    | Some _ => mergeHourlyData database hourlyData
    | None => (database, no_hourly_stats)
    end in
  let finalStats := countRecords database in
  {| merged := database;
     merged_meta :=
       {| lastUpdate := now;
          lastFetchRange := dateRange monthlyData;
          storage := "azure";
          version := "3.1";
          source := "arcadia-genability";
          hasHourlyData := Nat.ltb 0 (count_hourly finalStats);
          totalMonthlyRecords := count_monthly finalStats;
          totalHourlyRecords := count_hourly finalStats |};
     mStats := mStats;
     hStats := hStats;
     hasChanges :=
       (Nat.ltb 0 (added mStats) || Nat.ltb 0 (updated mStats) ||
        Nat.ltb 0 (addedMonths hStats) ||
        Nat.ltb 0 (updatedMonths hStats))%bool |}.

End LmpUpdater.

(** ** What the specification asks of the gateway, and sample inputs *)

Module GatewaySpec.
Import Js SecureDataAPI.

(** An authenticated and authorized request: it presents the key [k], the
    key is in the configured list, the route names the document [f], and the
    permission table lets the role of [k] do to [f] what the method asks. *)
Definition authorized (cfg : config) (req : request) (k f : string) : Prop :=
  presented_key req = Some k ∧
  includes (validKeys cfg) k = true ∧
  nonempty (params_filename req) = Some f ∧
  hasPermission k f (operation_of (method req)) = true.

(** A malformed key, in the specification's words: no ['-'] separator, or a
    first ['-']-separated segment that is not [ses]. *)
Definition malformed_key (k : string) : bool :=
  match split "-" k with
  | [] | [_] => true
  | p0 :: _ => negb (String.eqb p0 "ses")
  end.

(** The same request under another method. *)
Definition with_method (m : string) (req : request) : request :=
  {| method := m; headers := headers req;
     params_filename := params_filename req; params_id := params_id req;
     body := body req |}.

(** A non-array object. *)
Definition is_plain_object (v : json) : bool :=
  match v with
  | JObj _ => true
  | _ => false
  end.

(** The keys of an object are pairwise distinct, as in every parsed
    document. *)
Definition distinct_keys (v : json) : Prop :=
  NoDup (own_props (Some v)).*1.

(** Sample configuration, environment, store and requests. *)
Definition sample_cfg : config :=
  {| validKeys := ["ses-admin-k1"; "ses-ae-xyz"; "badkey"] |}.

Definition sample_env : environment :=
  {| now := "2026-02-05T12:00:00.000Z";
     fresh_id := "1770292800000-k3j9x0q2a" |}.

Definition sample_request (m key : string) (f id : option string)
    (b : option json) : request :=
  {| method := m; headers := {[ "x-api-key" := key ]};
     params_filename := f; params_id := id; body := b |}.

Definition sample_profile : json :=
  JObj [("id", JStr "p1"); ("name", JStr "loc1");
        ("createdAt", JStr "2026-01-01T08:00:00.000Z");
        ("createdBy", JStr "admin")].

Definition sample_store : gmap string json :=
  {[ "energy-profiles.json" := JArr [sample_profile];
     "contracts.json" := JObj [("version", JNum 1)];
     "usage-profiles.json" := JNull ]}.

(** A role name without the separator. *)
Fixpoint no_dash (s : string) : bool :=
  match s with
  | EmptyString => true
  | String c s' => (negb (Ascii.eqb c "-") && no_dash s')%bool
  end.

(** The same request on another method and record id. *)
Definition with_route (m : string) (id : option string) (req : request)
  : request :=
  {| method := m; headers := headers req;
     params_filename := params_filename req; params_id := id;
     body := body req |}.

(** An element that can be inspected and carries the id in one of its three
    id fields. *)
Definition has_id (recordId : string) (item : json) : bool :=
  match matches recordId item with
  | Ok true => true
  | _ => false
  end.

Definition is_null (v : json) : bool :=
  match v with
  | JNull => true
  | _ => false
  end.

(** A number that is written as [null]: [Infinity], [-Infinity] or [NaN]. *)
Definition non_finite (v : json) : bool :=
  match v with
  | JNum n => negb (finite n)
  | _ => false
  end.

(** Sample key of the role [readonly], which may neither write nor
    delete. *)
Definition readonly_key : string := "ses-readonly-r1".

End GatewaySpec.

(** ** What the specification asks of the merge, and sample inputs *)

Module LmpSpec.
Import Js LmpUpdater.

(** Every price of the block is zero. *)
Definition all_zero (records : list hourly_record) : bool :=
  forallb (λ r, PrimFloat.eqb (p r) 0) records.

Definition is_empty (records : list hourly_record) : bool :=
  match records with
  | [] => true
  | _ => false
  end.

(** The number of blocks of one ISO that satisfy [Q]. *)
Definition count_in (Q : string → list hourly_record → bool)
    (monthData : gmap string (list hourly_record)) : nat :=
  map_fold (λ ym records n, if Q ym records then S n else n) 0 monthData.

(** The number of (iso, year-month) blocks of a payload that satisfy [Q]. *)
Definition count_blocks (Q : string → string → list hourly_record → bool)
    (incoming : gmap string (gmap string (list hourly_record))) : nat :=
  map_fold (λ iso monthData n, n + count_in (Q iso) monthData) 0 incoming.

(** The blocks the merge has to skip, to add and to update, given the
    hourly data [h] it starts from. *)
Definition to_skip (_ _ : string) (records : list hourly_record) : bool :=
  (negb (is_empty records) && all_zero records)%bool.

Definition to_add (h : gmap string (gmap string (list hourly_record)))
    (iso ym : string) (records : list hourly_record) : bool :=
  (hasNonZero records && bool_decide (block h iso ym = None))%bool.

Definition to_update (h : gmap string (gmap string (list hourly_record)))
    (iso ym : string) (records : list hourly_record) : bool :=
  (hasNonZero records && bool_decide (block h iso ym ≠ None))%bool.

Definition indicator (b : bool) : nat := if b then 1 else 0.

(** A collation for the samples: code-unit order. *)
Definition codeunit_compare (a b : string) : Z :=
  match String.compare a b with
  | Lt => (-1)%Z
  | Eq => 0%Z
  | Gt => 1%Z
  end.

(** A record as the first fetcher writes it: [lmp] and an unpadded month. *)
Definition fetched_january : monthly_record :=
  {| iso := "PJM"; zone := "51291_AECO"; zone_id := None;
     year := "2025"; month := "1";
     avg_da_lmp := None; lmp := Some 42.5%float;
     min_price := None; max_price := None; record_count := None |}.

Definition stored_record (price : float) : monthly_record :=
  {| iso := "PJM"; zone := "AECO"; zone_id := Some "AECO";
     year := "2025"; month := "01";
     avg_da_lmp := Some price; lmp := None;
     min_price := Some price; max_price := Some price;
     record_count := Some 744%float |}.

Definition empty_database : database :=
  {| data := ∅; hourly := None |}.

Definition database_with (price : float) : database :=
  {| data := {[ "PJM" := [stored_record price] ]}; hourly := None |}.

Definition hour (d : string) (price : float) : hourly_record :=
  {| dt := d; p := price; z := "4001_MAINE" |}.

Definition sample_hourly_database : database :=
  {| data := ∅;
     hourly := Some {[ "ISONE" :=
       {[ "2025-01" := [hour "2025-01-01T00:00:00" 31.5%float];
          "2025-02" := [hour "2025-02-01T00:00:00" 28.25%float] ]} ]} |}.

Definition sample_payload (records : list hourly_record)
  : gmap string (gmap string (list hourly_record)) :=
  {[ "ISONE" := {[ "2025-01" := records ]} ]}.

(** The list stored for an ISO, empty when there is none. *)
Definition records_of (d : gmap string (list monthly_record))
    (iso : string) : list monthly_record :=
  default [] (d !! iso).

(** The first stored record with a key. *)
Fixpoint lookup_key (key : string) (l : list monthly_record)
  : option monthly_record :=
  match l with
  | [] => None
  | r :: l' => if String.eqb (monthlyKey r) key then Some r
               else lookup_key key l'
  end.

(** No two records of a list share a key. *)
Definition distinct_keys (l : list monthly_record) : Prop :=
  NoDup (monthlyKey <$> l).

(** The month is written with at least two characters, as the hourly
    fetcher and the merge itself write it. *)
Definition padded (r : monthly_record) : Prop :=
  padStart0 2 (month r) = month r.

(** A collation that is a total preorder: swapping the arguments flips the
    sign, and "not after" is transitive. *)
Definition consistent (lc : string → string → Z) : Prop :=
  (∀ a b, Z.sgn (lc b a) = (- Z.sgn (lc a b))%Z) ∧
  (∀ a b c, (lc a b ≤ 0)%Z → (lc b c ≤ 0)%Z → (lc a c ≤ 0)%Z).

(** [a] is not after [b] for the comparator of the final sort. *)
Definition not_after (lc : string → string → Z) (a b : monthly_record)
  : Prop :=
  (compare_records lc a b ≤ 0)%Z.


(** The price [mergeMonthlyData] takes from an incoming record. *)
Definition price (r : monthly_record) : float :=
  num_or (avg_da_lmp r) (num_or (lmp r) 0).

(** The stored record [e] is one that the incoming record [r] leaves alone:
    the zero guard holds, or the prices are within the tolerance. *)
Definition settled (r e : monthly_record) : bool :=
  ((PrimFloat.eqb (price r) 0 && positive (avg_da_lmp e))
   || negb (differs (avg_da_lmp e) (price r)))%bool.

(** Every list of the monthly data has pairwise distinct keys. *)
Definition well_keyed (d : gmap string (list monthly_record)) : Prop :=
  ∀ iso l, d !! iso = Some l → distinct_keys l.

(** Where an incoming record goes: the list of its ISO, under its key. *)
Definition place (r : monthly_record) : string * string :=
  (iso r, monthlyKey r).

(** The number of monthly records [countRecords] finds in [d]. *)
Definition monthly_total (d : gmap string (list monthly_record)) : nat :=
  count_monthly (countRecords {| data := d; hourly := None |}).




(** A name that is none of the members every object inherits from
    [Object.prototype].  On such a name a property read sees own properties
    only, which is how [LmpUpdater] reads [database.data[iso]],
    [database.hourly[iso]] and [database.hourly[iso][yearMonth]]. *)
Definition plain_name (name : string) : bool :=
  negb (includes SecureDataAPI.object_prototype_names name).

(** The ISOs of the incoming monthly records are plain names. *)
Definition plain_isos (records : list monthly_record) : Prop :=
  Forall (λ r, plain_name (iso r) = true) records.

(** The ISOs and the year-months of an hourly payload are plain names. *)
Definition plain_keys
    (incoming : gmap string (gmap string (list hourly_record))) : Prop :=
  map_Forall (λ iso monthData,
                plain_name iso = true ∧
                map_Forall (λ ym _, plain_name ym = true) monthData)
             incoming.

(** A larger sample: a stored list that is not in order, and incoming
    records of which one is new to the list, one changes a price, one
    repeats a stored record and one opens a list for another ISO. *)
Definition monthly_sample (i z y m : string) (price : float)
  : monthly_record :=
  {| iso := i; zone := z; zone_id := Some z; year := y; month := m;
     avg_da_lmp := Some price; lmp := None;
     min_price := Some price; max_price := Some price;
     record_count := Some 744%float |}.

Definition sample_monthly_database : database :=
  {| data := {[ "PJM" := [monthly_sample "PJM" "PSEG" "2025" "01" 40;
                          monthly_sample "PJM" "AECO" "2025" "02" 31] ]};
     hourly := None |}.

Definition sample_incoming : list monthly_record :=
  [monthly_sample "PJM" "BGE" "2025" "01" 39.5;
   monthly_sample "PJM" "AECO" "2025" "02" 35;
   monthly_sample "PJM" "PSEG" "2025" "01" 40;
   monthly_sample "ISONE" "4001_MAINE" "2025" "01" 52.25].

Definition sample_hourly_payload
  : gmap string (gmap string (list hourly_record)) :=
  {[ "ISONE" := {[ "2025-01" := [hour "2025-01-01T00:00:00" 0%float;
                                 hour "2025-01-01T01:00:00" 30.75%float];
                   "2025-03" := [hour "2025-03-01T00:00:00" 0%float];
                   "2025-04" := [] ]};
     "PJM" := {[ "2025-01" := [hour "2025-01-01T00:00:00" 22%float] ]} ]}.

End LmpSpec.

(** ** Properties of the gateway *)

Module GatewayProps.
Import Js SecureDataAPI GatewaySpec.

(** *** Strings, arrays of strings and object properties *)

Lemma includes_elem_of (l : list string) (x : string) :
  includes l x = true ↔ x ∈ l.
Proof.
  unfold includes. rewrite existsb_exists. split.
  - intros (y & Hy & He). apply String.eqb_eq in He. subst y.
    by apply list_elem_of_In.
  - intros Hx. exists x. split; [by apply list_elem_of_In|].
    apply String.eqb_refl.
Qed.

Lemma assoc_obj_set_eq k v ps : assoc k (obj_set k v ps) = Some v.
Proof.
  induction ps as [|[k' v'] ps IH]; simpl.
  - by rewrite String.eqb_refl.
  - destruct (String.eqb k' k) eqn:E; simpl.
    + by rewrite String.eqb_refl.
    + destruct (precedes k k'); simpl.
      * by rewrite String.eqb_refl.
      * by rewrite E.
Qed.

Lemma assoc_obj_set_ne k k' v ps :
  k' ≠ k → assoc k (obj_set k' v ps) = assoc k ps.
Proof.
  intros Hne. apply String.eqb_neq in Hne.
  induction ps as [|[k0 v0] ps IH]; simpl.
  - by rewrite Hne.
  - destruct (String.eqb k0 k') eqn:E; simpl.
    + apply String.eqb_eq in E. subst k0. by rewrite Hne.
    + destruct (precedes k' k0); simpl.
      * by rewrite Hne.
      * destruct (String.eqb k0 k); [done | apply IH].
Qed.

Lemma assoc_obj_remove_eq k ps : assoc k (obj_remove k ps) = None.
Proof.
  unfold obj_remove. induction ps as [|[k' v'] ps IH]; [done|].
  rewrite filter_cons. simpl. destruct (String.eqb k' k) eqn:E; simpl.
  - apply IH.
  - by rewrite E.
Qed.

Lemma assoc_obj_remove_ne k k' ps :
  k' ≠ k → assoc k (obj_remove k' ps) = assoc k ps.
Proof.
  intros Hne. unfold obj_remove.
  induction ps as [|[k0 v0] ps IH]; [done|].
  rewrite filter_cons. simpl. destruct (String.eqb k0 k') eqn:E; simpl.
  - apply String.eqb_eq in E. subst k0.
    apply String.eqb_neq in Hne. by rewrite Hne.
  - destruct (String.eqb k0 k); [done | apply IH].
Qed.

Lemma assoc_obj_set_opt_eq k v ps : assoc k (obj_set_opt k v ps) = v.
Proof.
  destruct v; simpl; [apply assoc_obj_set_eq | apply assoc_obj_remove_eq].
Qed.

Lemma assoc_obj_set_opt_ne k k' v ps :
  k' ≠ k → assoc k (obj_set_opt k' v ps) = assoc k ps.
Proof.
  destruct v; simpl; [apply assoc_obj_set_ne | apply assoc_obj_remove_ne].
Qed.

Lemma assoc_None_not_elem k ps : assoc k ps = None → k ∉ ps.*1.
Proof.
  induction ps as [|[k' v'] ps IH]; simpl; [intros _; apply not_elem_of_nil|].
  destruct (String.eqb k' k) eqn:E; [done|]. intros H.
  apply String.eqb_neq in E. apply not_elem_of_cons. auto.
Qed.

Lemma assoc_not_elem k ps : k ∉ ps.*1 → assoc k ps = None.
Proof.
  induction ps as [|[k' v'] ps IH]; simpl; [done|].
  intros [Hne Hni]%not_elem_of_cons.
  assert (String.eqb k' k = false) as -> by (apply String.eqb_neq; congruence).
  auto.
Qed.

(** Copying properties with pairwise distinct keys over an object: a copied
    key reads as copied, every other key as before. *)
Lemma assoc_spread k acc ps :
  NoDup ps.*1 →
  assoc k (spread acc ps) =
    match assoc k ps with
    | Some v => Some v
    | None => assoc k acc
    end.
Proof.
  unfold spread. revert acc.
  induction ps as [|[k' v'] ps IH]; intros acc Hnd; [done|].
  apply NoDup_cons in Hnd as [Hni Hnd]. simpl in *. rewrite IH by done.
  destruct (String.eqb k' k) eqn:E.
  - apply String.eqb_eq in E. subst k'.
    rewrite (assoc_not_elem _ _ Hni). apply assoc_obj_set_eq.
  - apply String.eqb_neq in E.
    destruct (assoc k ps); [done|]. by apply assoc_obj_set_ne.
Qed.

(** *** What is read back from a stored value *)

Lemma assoc_enumerate k ps : assoc k (enumerate ps) = assoc k ps.
Proof.
  unfold enumerate.
  assert (∀ acc, assoc k
            (fold_left (λ o p, match assoc (fst p) o with
                               | Some _ => o
                               | None => obj_set (fst p) (snd p) o
                               end) ps acc)
          = match assoc k acc with
            | Some v => Some v
            | None => assoc k ps
            end) as H; [|by rewrite H].
  induction ps as [|[k' v'] ps IH]; intros acc; simpl.
  - by destruct (assoc k acc).
  - rewrite IH. destruct (String.eqb k' k) eqn:E.
    + apply String.eqb_eq in E. subst k'.
      destruct (assoc k acc) eqn:Ha; [by rewrite Ha|].
      by rewrite assoc_obj_set_eq.
    + apply String.eqb_neq in E.
      destruct (assoc k' acc); [done|]. by rewrite assoc_obj_set_ne.
Qed.

Lemma assoc_fmap_snd (g : json → json) k ps :
  assoc k ((λ p, (fst p, g (snd p))) <$> ps) = g <$> assoc k ps.
Proof.
  induction ps as [|[k' v'] ps IH]; simpl; [done|].
  by destruct (String.eqb k' k).
Qed.

(** A property of the value read back is the property of the value written,
    read back. *)
Lemma get_reparse v k : get (reparse v) k = reparse <$> get v k.
Proof.
  destruct v as [| |n| | |ps]; simpl; try done.
  - by destruct (finite n), (PrimFloat.eqb n 0).
  - by rewrite assoc_enumerate, assoc_fmap_snd.
Qed.

Lemma strict_eq_str_reparse o s :
  strict_eq_str (reparse <$> o) s = strict_eq_str o s.
Proof.
  destruct o as [[| |n| | |]|]; simpl; try done.
  by destruct (finite n), (PrimFloat.eqb n 0).
Qed.

Lemma is_null_reparse v :
  is_null (reparse v) = (is_null v || non_finite v)%bool.
Proof.
  destruct v as [| |n| | |]; simpl; try done.
  by destruct (finite n), (PrimFloat.eqb n 0).
Qed.

(** The id test on the value read back: it throws on what was written as
    [null], and is otherwise the test on the value written. *)
Lemma matches_reparse id item :
  matches id (reparse item) =
    if non_finite item then Throw else matches id item.
Proof.
  destruct item as [| |n| | |ps]; try done.
  - simpl. by destruct (finite n), (PrimFloat.eqb n 0).
  - unfold matches, get_prop.
    change (reparse (JObj ps)) with
      (JObj (enumerate ((λ p, (fst p, reparse (snd p))) <$> ps))).
    cbn [non_finite mbind result_bind].
    rewrite !(get_reparse (JObj ps)), !strict_eq_str_reparse. done.
Qed.

Lemma has_id_object id item : has_id id item = true → non_finite item = false.
Proof. by destruct item. Qed.

(** *** Key and role *)

Lemma malformed_key_no_role k :
  malformed_key k = true → getRoleFromKey k = None.
Proof.
  unfold malformed_key, getRoleFromKey.
  destruct (split "-" k) as [|p0 [|p1 ps]]; try done.
  by intros ->%negb_true_iff.
Qed.

Lemma no_role_no_permission k f op :
  getRoleFromKey k = None → hasPermission k f op = false.
Proof. unfold hasPermission. by intros ->. Qed.

(** C4.  For a key that resolves to the role [R], [hasPermission] answers
    true exactly when the document is in the allow-set the table configures
    for [R] and the operation; it answers false for a role the table does
    not list, and for a document that is not in the entry. *)
Theorem hasPermission_iff_allow_set (apiKey R D : string) (op : operation) :
  getRoleFromKey apiKey = Some R →
  (hasPermission apiKey D op = true ↔ D ∈ allow_set R op) ∧
  (own_entry R FILE_PERMISSIONS = None → hasPermission apiKey D op = false) ∧
  (D ∉ allow_set R op → hasPermission apiKey D op = false).
Proof.
  intros HR.
  assert (hasPermission apiKey D op = true ↔ D ∈ allow_set R op) as Hiff.
  { unfold hasPermission, allow_set, table_get. rewrite HR.
    destruct (String.eqb R "") eqn:E.
    - apply String.eqb_eq in E. subst R. simpl. split; [done|].
      by intros ?%elem_of_nil.
    - destruct (own_entry R FILE_PERMISSIONS) as [p|].
      + apply includes_elem_of.
      + destruct (includes object_prototype_names R);
          (split; [done | by intros ?%elem_of_nil]). }
  split; [done|]. split.
  - intros Hnone. apply not_true_is_false. rewrite Hiff.
    unfold allow_set. rewrite Hnone. apply not_elem_of_nil.
  - intros Hni. apply not_true_is_false. by rewrite Hiff.
Qed.

Lemma hasPermission_iff_allow_set_witness :
  getRoleFromKey "ses-ae-xyz" = Some "ae" ∧
  (hasPermission "ses-ae-xyz" "clients.json" OpRead = true ↔
     "clients.json" ∈ allow_set "ae" OpRead).
Proof.
  split; [reflexivity|].
  apply (hasPermission_iff_allow_set "ses-ae-xyz" "ae" "clients.json" OpRead).
  reflexivity.
Defined.

(** Whoever may delete a document may read it: in every entry of the table
    the delete set is within the read set. *)
Lemma delete_within_read R p :
  own_entry R FILE_PERMISSIONS = Some p →
  ∀ f, includes (perm_delete p) f = true → includes (perm_read p) f = true.
Proof.
  unfold FILE_PERMISSIONS. cbn [own_entry].
  repeat (destruct (String.eqb _ R);
          [intros [= <-] f; rewrite !includes_elem_of;
           cbn [perm_delete perm_read]; set_solver|]).
  done.
Qed.

Lemma hasPermission_delete_read k f :
  hasPermission k f OpDelete = true → hasPermission k f OpRead = true.
Proof.
  unfold hasPermission, table_get.
  destruct (getRoleFromKey k) as [R|]; [|done].
  destruct (String.eqb R ""); [done|].
  destruct (own_entry R FILE_PERMISSIONS) as [p|] eqn:E.
  - simpl. by apply delete_within_read with R.
  - by destruct (includes object_prototype_names R).
Qed.

(** *** The entry gates *)

Lemma handler_authorized cfg env store req k f :
  method req ≠ "OPTIONS" →
  authorized cfg req k f →
  handler cfg env store req =
    match dispatch env store req k f with
    | Ok r => r
    | Throw => (respond 500 (Some (JObj [("error", JStr "Server Error")])),
                store)
    end.
Proof.
  intros Hm (Hk & Hv & Hf & Hp). unfold handler.
  apply String.eqb_neq in Hm. rewrite Hm, Hk, Hv, Hf, Hp. reflexivity.
Qed.

(** A response other than 204, 401, 400 and 403 comes from an authorized
    request. *)
Lemma handler_past_gates cfg env store req n :
  status_of (handler cfg env store req) = Some n →
  n ≠ 204 → n ≠ 401 → n ≠ 400 → n ≠ 403 →
  method req ≠ "OPTIONS" ∧ ∃ k f, authorized cfg req k f.
Proof.
  unfold handler, status_of.
  destruct (String.eqb (method req) "OPTIONS") eqn:Hm;
    [simpl; congruence|].
  apply String.eqb_neq in Hm.
  destruct (presented_key req) as [k|] eqn:Hk; [|simpl; congruence].
  destruct (includes (validKeys cfg) k) eqn:Hv; [|simpl; congruence].
  destruct (nonempty (params_filename req)) as [f|] eqn:Hf;
    [|simpl; congruence].
  destruct (hasPermission k f (operation_of (method req))) eqn:Hp;
    [|simpl; congruence].
  intros _ _ _ _ _. split; [done|]. exists k, f. by repeat split.
Qed.

(** C8, as amended.  A request other than OPTIONS that presents a malformed
    key is answered 401 when the key is not in the configured list; when the
    key is in the list it is answered 400 if the route names no document and
    403 otherwise.  In every case the store is left as it was. *)
Theorem malformed_key_rejected cfg env store req k :
  method req ≠ "OPTIONS" →
  presented_key req = Some k →
  malformed_key k = true →
  status_of (handler cfg env store req) =
    Some (if includes (validKeys cfg) k
          then match nonempty (params_filename req) with
               | None => 400
               | Some _ => 403
               end
          else 401) ∧
  snd (handler cfg env store req) = store.
Proof.
  intros Hm Hk Hbad. unfold handler, status_of.
  apply String.eqb_neq in Hm. rewrite Hm, Hk.
  destruct (includes (validKeys cfg) k); [|done].
  destruct (nonempty (params_filename req)) as [f|]; [|done].
  by rewrite (no_role_no_permission k f _ (malformed_key_no_role k Hbad)).
Qed.

Lemma malformed_key_rejected_witness :
  status_of (handler sample_cfg sample_env sample_store
               (sample_request "DELETE" "ses_admin"
                  (Some "tickets.json") (Some "t1") None)) = Some 401.
Proof.
  refine (proj1 (malformed_key_rejected sample_cfg sample_env sample_store
                   (sample_request "DELETE" "ses_admin"
                      (Some "tickets.json") (Some "t1") None)
                   "ses_admin" _ _ _)).
  - discriminate.
  - reflexivity.
  - reflexivity.
Defined.

(** C8, as stated, fails: the malformed key [badkey], once it is in the
    configured list, passes authentication and is answered 403. *)
Lemma malformed_key_not_always_401 :
  ¬ (∀ cfg env store req k,
       method req ≠ "OPTIONS" →
       presented_key req = Some k →
       malformed_key k = true →
       status_of (handler cfg env store req) = Some 401).
Proof.
  intros H.
  specialize (H sample_cfg sample_env sample_store
                (sample_request "GET" "badkey" (Some "clients.json")
                   None None) "badkey").
  assert (Some 403 = Some 401) as Habs; [|discriminate Habs].
  apply H; [discriminate | reflexivity | reflexivity].
Qed.

(** *** Requests without a body *)

(** POST without a body is answered 400 and stores nothing. *)
Lemma post_without_body_rejected cfg env store req k f :
  method req = "POST" →
  authorized cfg req k f →
  body req = None →
  handler cfg env store req = (bad_request "Request body required.", store).
Proof.
  intros Hm Hauth Hb.
  rewrite (handler_authorized _ _ _ _ k f); [|by rewrite Hm|done].
  unfold dispatch, handle_post. by rewrite Hm, Hb.
Qed.

(** C9 fails on PUT.  An authorized PUT of a record without a body is
    answered 200 and rewrites the record (only the POST path checks for a
    body); an authorized whole-file PUT without a body is answered 500. *)
Theorem put_without_body_not_rejected :
  authorized sample_cfg
    (sample_request "PUT" "ses-ae-xyz" (Some "energy-profiles.json")
       (Some "p1") None)
    "ses-ae-xyz" "energy-profiles.json" ∧
  status_of (handler sample_cfg sample_env sample_store
               (sample_request "PUT" "ses-ae-xyz"
                  (Some "energy-profiles.json") (Some "p1") None))
    = Some 200 ∧
  snd (handler sample_cfg sample_env sample_store
         (sample_request "PUT" "ses-ae-xyz"
            (Some "energy-profiles.json") (Some "p1") None))
    !! "energy-profiles.json"
    = Some (JArr [JObj [("id", JStr "p1"); ("name", JStr "loc1");
                        ("createdAt", JStr "2026-01-01T08:00:00.000Z");
                        ("createdBy", JStr "admin");
                        ("updatedAt", JStr "2026-02-05T12:00:00.000Z");
                        ("updatedBy", JStr "ae")]]) ∧
  status_of (handler sample_cfg sample_env sample_store
               (sample_request "PUT" "ses-ae-xyz"
                  (Some "energy-profiles.json") None None))
    = Some 500.
Proof. repeat split; reflexivity. Qed.

(** *** Reading a record of a document that is not an array *)

(** C10, as amended.  An authorized GET that carries a record id, on a
    stored document that is neither an array nor the JSON value [null], is
    answered 200 with the entire document; the record id is ignored. *)
Theorem get_record_of_non_array cfg env store req k f id d :
  method req = "GET" →
  authorized cfg req k f →
  params_id req = Some id →
  store !! f = Some d →
  d ≠ JNull →
  isArray d = false →
  handler cfg env store req = (respond 200 (Some d), store).
Proof.
  intros Hm Hauth Hid Hd Hnull Harr.
  rewrite (handler_authorized _ _ _ _ k f); [|by rewrite Hm|done].
  unfold dispatch, handle_get, getBlob. rewrite Hm, Hid, Hd. simpl.
  destruct d; try done; by destruct (String.eqb id "").
Qed.

Lemma get_record_of_non_array_witness :
  handler sample_cfg sample_env sample_store
    (sample_request "GET" "ses-ae-xyz" (Some "contracts.json")
       (Some "c7") None)
  = (respond 200 (Some (JObj [("version", JNum 1)])), sample_store).
Proof.
  apply (get_record_of_non_array sample_cfg sample_env sample_store
           (sample_request "GET" "ses-ae-xyz" (Some "contracts.json")
              (Some "c7") None)
           "ses-ae-xyz" "contracts.json" "c7").
  - reflexivity.
  - repeat split; reflexivity.
  - reflexivity.
  - reflexivity.
  - discriminate.
  - reflexivity.
Defined.

(** C10, as stated, fails: a blob whose content is the JSON text [null]
    exists and is not an array, and a GET of it is answered 404. *)
Lemma get_record_of_null_document_404 :
  ¬ (∀ cfg env store req k f id d,
       method req = "GET" →
       authorized cfg req k f →
       params_id req = Some id →
       store !! f = Some d →
       isArray d = false →
       status_of (handler cfg env store req) = Some 200).
Proof.
  intros H.
  specialize (H sample_cfg sample_env sample_store
                (sample_request "GET" "ses-ae-xyz"
                   (Some "usage-profiles.json") (Some "u1") None)
                "ses-ae-xyz" "usage-profiles.json" "u1" JNull).
  assert (Some 404 = Some 200) as Habs; [|discriminate Habs].
  apply H; [reflexivity | repeat split; reflexivity | reflexivity ..].
Qed.

(** *** Deleting a record *)

Lemma remove_no_match id items items' :
  remove id items = Ok items' →
  Forall (λ item, matches id item = Ok false) items'.
Proof.
  revert items'. induction items as [|item items IH]; simpl; intros items' H.
  - injection H as <-. constructor.
  - destruct (matches id item) as [m|] eqn:Em; simpl in H; [|done].
    destruct (remove id items) as [rest|]; simpl in H; [|done].
    injection H as <-. destruct m; [by apply IH|].
    constructor; [done | by apply IH].
Qed.

(** A record deletion answered 200 stored what is read back from the
    filtered array. *)
Lemma handle_delete_record_200 store f rid id r store' :
  nonempty rid = Some id →
  handle_delete store f rid = Ok (r, store') →
  status <$> r = Some 200 →
  ∃ items items',
    getBlob store f = Some (JArr items) ∧
    remove id items = Ok items' ∧
    store' = <[f := JArr (reparse <$> items')]> store.
Proof.
  intros Hid. unfold handle_delete. rewrite Hid.
  destruct (getBlob store f) as [[| | | |items|]|] eqn:Hg;
    try (intros [= <- <-]; discriminate).
  destruct (remove id items) as [items'|] eqn:Hr; simpl; [|done].
  destruct (Nat.eqb (length items') (length items));
    [intros [= <- <-]; discriminate|].
  intros [= <- <-] _. by exists items, items'.
Qed.

Lemma getBlob_insert_array store f items :
  getBlob (<[f := JArr items]> store) f = Some (JArr items).
Proof. unfold getBlob. by rewrite lookup_insert_eq. Qed.

Lemma getBlob_array store f items :
  getBlob store f = Some (JArr items) → store !! f = Some (JArr items).
Proof. unfold getBlob. by destruct (store !! f) as [[]|]. Qed.

(** The elements removed are objects, so every number stays. *)
Lemma remove_non_finite id items items' :
  remove id items = Ok items' →
  existsb non_finite items' = existsb non_finite items.
Proof.
  revert items'. induction items as [|item items IH]; simpl; intros items' H.
  - by injection H as <-.
  - destruct (matches id item) as [m|] eqn:Em; simpl in H; [|done].
    destruct (remove id items) as [rest|]; simpl in H; [|done].
    injection H as <-. rewrite <-(IH rest) by done. destruct m; simpl; [|done].
    rewrite (has_id_object id item); [done|]. unfold has_id. by rewrite Em.
Qed.

(** Looking for an id in what is read back from an array none of whose
    elements carries it: nothing is found, unless an element was written as
    [null], on which the test throws. *)
Lemma find_reparse_no_match id items :
  Forall (λ item, matches id item = Ok false) items →
  find id (reparse <$> items) =
    if existsb non_finite items then Throw else Ok None.
Proof.
  induction 1 as [|item items Hm _ IH]; simpl; [done|].
  rewrite matches_reparse, Hm. destruct (non_finite item); simpl; [done|].
  apply IH.
Qed.

Lemma remove_reparse_no_match id items :
  Forall (λ item, matches id item = Ok false) items →
  remove id (reparse <$> items) =
    if existsb non_finite items then Throw else Ok (reparse <$> items).
Proof.
  induction 1 as [|item items Hm _ IH]; [done|].
  rewrite fmap_cons. cbn [remove existsb].
  rewrite matches_reparse, Hm. destruct (non_finite item); [done|].
  cbn [mbind result_bind orb]. rewrite IH.
  by destruct (existsb non_finite items).
Qed.

Lemma no_match_reparse id items :
  Forall (λ item, matches id item = Ok false) items →
  Forall (λ item, has_id id item = false) (reparse <$> items).
Proof.
  intros H. apply Forall_fmap. eapply Forall_impl; [exact H|].
  intros item Hm. unfold has_id. simpl. rewrite matches_reparse, Hm.
  by destruct (non_finite item).
Qed.

(** C7, as amended.  After a DELETE of a record id from a stored array is
    answered 200, no element of the array written back has the id in its
    [id], [_id] or [profileId] field.  When no element of the stored array
    is a number written as [null] ([Infinity], [-Infinity], [NaN]), a GET of
    the same id and the same DELETE repeated are answered 404; when one is,
    the array written back holds [null] in its place, and both are answered
    500. *)
Theorem delete_then_get_and_delete_404
    cfg env env1 env2 store req id r store' :
  method req = "DELETE" →
  nonempty (params_id req) = Some id →
  handler cfg env store req = (r, store') →
  status <$> r = Some 200 →
  ∃ f items items',
    nonempty (params_filename req) = Some f ∧
    store !! f = Some (JArr items) ∧
    store' !! f = Some (JArr items') ∧
    Forall (λ item, has_id id item = false) items' ∧
    status_of (handler cfg env1 store' (with_method "GET" req))
      = Some (if existsb non_finite items then 500 else 404) ∧
    status_of (handler cfg env2 store' req)
      = Some (if existsb non_finite items then 500 else 404).
Proof.
  intros Hm Hid Hh H200.
  destruct (handler_past_gates cfg env store req 200) as (Hopt & k & f & Hauth);
    [by unfold status_of; rewrite Hh | done..|].
  rewrite (handler_authorized _ _ _ _ k f) in Hh by done.
  unfold dispatch in Hh. rewrite Hm in Hh. simpl in Hh.
  destruct (handle_delete store f (params_id req)) as [[r0 s0]|] eqn:Hd;
    [|injection Hh as <- <-; discriminate].
  injection Hh as -> ->.
  destruct (handle_delete_record_200 _ _ _ _ _ _ Hid Hd H200)
    as (items & items' & Hg & Hr & ->).
  pose proof (remove_no_match _ _ _ Hr) as Hnone.
  destruct Hauth as (Hk & Hv & Hf & Hp). rewrite Hm in Hp.
  exists f, items, (reparse <$> items').
  rewrite <-(remove_non_finite _ _ _ Hr).
  split; [done|]. split; [by apply getBlob_array|].
  split; [by rewrite lookup_insert_eq|].
  split; [by apply no_match_reparse|]. split.
  - rewrite (handler_authorized _ _ _ _ k f).
    + unfold dispatch, handle_get. simpl.
      rewrite getBlob_insert_array, Hid.
      rewrite (find_reparse_no_match _ _ Hnone).
      by destruct (existsb non_finite items').
    + simpl. discriminate.
    + repeat split; simpl; try done.
      by apply hasPermission_delete_read.
  - rewrite (handler_authorized _ _ _ _ k f); [|done|].
    + unfold dispatch, handle_delete. rewrite Hm. simpl.
      rewrite Hid, getBlob_insert_array.
      rewrite (remove_reparse_no_match _ _ Hnone).
      destruct (existsb non_finite items'); [done|]. simpl.
      by rewrite Nat.eqb_refl.
    + repeat split; try done. by rewrite Hm.
Qed.

Lemma delete_then_get_and_delete_404_witness :
  let store : gmap string json :=
    {[ "energy-profiles.json" :=
         JArr [JObj [("id", JStr "p0"); ("rate", JNum (-0))];
               sample_profile;
               JObj [("name", JStr "copy"); ("profileId", JStr "p1")]] ]} in
  let req :=
    sample_request "DELETE" "ses-ae-xyz" (Some "energy-profiles.json")
      (Some "p1") None in
  ∃ f items items',
    nonempty (params_filename req) = Some f ∧
    store !! f = Some (JArr items) ∧
    <[ "energy-profiles.json" :=
         JArr [JObj [("id", JStr "p0"); ("rate", JNum 0)]] ]> store !! f
      = Some (JArr items') ∧
    Forall (λ item, has_id "p1" item = false) items' ∧
    status_of (handler sample_cfg sample_env
                 (<[ "energy-profiles.json" :=
                       JArr [JObj [("id", JStr "p0"); ("rate", JNum 0)]] ]>
                    store)
                 (with_method "GET" req))
      = Some (if existsb non_finite items then 500 else 404) ∧
    status_of (handler sample_cfg sample_env
                 (<[ "energy-profiles.json" :=
                       JArr [JObj [("id", JStr "p0"); ("rate", JNum 0)]] ]>
                    store)
                 req)
      = Some (if existsb non_finite items then 500 else 404).
Proof.
  intros store req.
  apply (delete_then_get_and_delete_404 sample_cfg sample_env sample_env
           sample_env store req "p1"
           (respond 200
              (Some (JObj [("success", JBool true);
                           ("message", JStr "Record deleted.")])))).
  - reflexivity.
  - reflexivity.
  - reflexivity.
  - reflexivity.
Defined.

(** C7, as stated, fails on an array that holds [Infinity] (the number a
    blob's [1e999] parses to): the DELETE of [p1] is answered 200 and writes
    the remaining element back as [null], and the GET of [p1] that follows
    reads a property of [null] and is answered 500, not 404. *)
Lemma delete_then_get_500_after_infinity :
  ¬ (∀ cfg env env1 env2 store req id r store',
       method req = "DELETE" →
       nonempty (params_id req) = Some id →
       handler cfg env store req = (r, store') →
       status <$> r = Some 200 →
       status_of (handler cfg env1 store' (with_method "GET" req))
         = Some 404 ∧
       status_of (handler cfg env2 store' req) = Some 404).
Proof.
  intros H.
  destruct (H sample_cfg sample_env sample_env sample_env
              {[ "energy-profiles.json" :=
                   JArr [JNum infinity; sample_profile] ]}
              (sample_request "DELETE" "ses-ae-xyz"
                 (Some "energy-profiles.json") (Some "p1") None)
              "p1"
              (respond 200
                 (Some (JObj [("success", JBool true);
                              ("message", JStr "Record deleted.")])))
              {[ "energy-profiles.json" := JArr [JNull] ]})
    as [Habs _]; [reflexivity..|].
  vm_compute in Habs. discriminate Habs.
Qed.

(** *** Updating a record *)

(** What PUT keeps and what it stamps: [id] and [createdAt] read as they did
    on the existing record whatever the body carries, [updatedAt] is the
    request time and [updatedBy] the role of the key. *)
Lemma updated_record_fields env k existing upd :
  get (JObj (updated_record env k existing upd)) "id" = get existing "id" ∧
  get (JObj (updated_record env k existing upd)) "createdAt"
    = get existing "createdAt" ∧
  get (JObj (updated_record env k existing upd)) "updatedAt"
    = Some (JStr (now env)) ∧
  get (JObj (updated_record env k existing upd)) "updatedBy"
    = Some (role_json k).
Proof.
  unfold updated_record. cbn [get]. repeat split.
  - rewrite assoc_obj_set_ne, assoc_obj_set_ne by done.
    rewrite assoc_obj_set_opt_ne by done. apply assoc_obj_set_opt_eq.
  - rewrite assoc_obj_set_ne, assoc_obj_set_ne by done.
    apply assoc_obj_set_opt_eq.
  - rewrite assoc_obj_set_ne by done. apply assoc_obj_set_eq.
  - apply assoc_obj_set_eq.
Qed.

(** What PUT lets through: a [createdBy] carried by the body replaces the
    one of the existing record. *)
Lemma updated_record_createdBy env k existing ps v :
  NoDup ps.*1 →
  assoc "createdBy" ps = Some v →
  get (JObj (updated_record env k existing (Some (JObj ps)))) "createdBy"
    = Some v.
Proof.
  intros Hnd Hv. unfold updated_record. cbn [get own_props].
  rewrite !assoc_obj_set_ne, !assoc_obj_set_opt_ne by done.
  by rewrite assoc_spread, Hv.
Qed.

(** The record path of PUT, when the record is found. *)
Lemma put_record_update cfg env store req k f id items i existing :
  method req = "PUT" →
  authorized cfg req k f →
  nonempty (params_id req) = Some id →
  getBlob store f = Some (JArr items) →
  findIndex id items = Ok (Some i) →
  items !! i = Some existing →
  handler cfg env store req =
    (respond 200
       (Some (JObj [("success", JBool true);
                    ("message", JStr "Record updated.");
                    ("record",
                     JObj (updated_record env k existing (body req)))])),
     <[f := reparse
              (JArr (<[i := JObj (updated_record env k existing (body req))]>
                       items))]> store).
Proof.
  intros Hm Hauth Hid Hg Hi He.
  rewrite (handler_authorized _ _ _ _ k f); [|by rewrite Hm|done].
  unfold dispatch, handle_put. rewrite Hm.
  cbn [String.eqb Ascii.eqb Bool.eqb].
  rewrite Hid, Hg, Hi. cbn [mbind result_bind]. by rewrite He.
Qed.

(** C1 fails on [createdBy].  The record [p1] was created by [admin]; an
    authorized PUT whose body carries [id], [createdAt] and [createdBy]
    leaves [id] and [createdAt] as they were and stamps [updatedAt] and
    [updatedBy], but stores the body's [createdBy]. *)
Theorem put_overrides_createdBy :
  get sample_profile "createdBy" = Some (JStr "admin") ∧
  handler sample_cfg sample_env sample_store
    (sample_request "PUT" "ses-ae-xyz" (Some "energy-profiles.json")
       (Some "p1")
       (Some (JObj [("id", JStr "p2"); ("createdAt", JStr "1970");
                    ("createdBy", JStr "mallory")])))
  = (respond 200
       (Some (JObj [("success", JBool true);
                    ("message", JStr "Record updated.");
                    ("record",
                     JObj [("id", JStr "p1"); ("name", JStr "loc1");
                           ("createdAt", JStr "2026-01-01T08:00:00.000Z");
                           ("createdBy", JStr "mallory");
                           ("updatedAt", JStr "2026-02-05T12:00:00.000Z");
                           ("updatedBy", JStr "ae")])])),
     <[ "energy-profiles.json" :=
          JArr [JObj [("id", JStr "p1"); ("name", JStr "loc1");
                      ("createdAt", JStr "2026-01-01T08:00:00.000Z");
                      ("createdBy", JStr "mallory");
                      ("updatedAt", JStr "2026-02-05T12:00:00.000Z");
                      ("updatedBy", JStr "ae")]] ]> sample_store).
Proof. split; reflexivity. Qed.

(** *** Creating a record *)

Lemma hasPermission_role k f op :
  hasPermission k f op = true → ∃ R, getRoleFromKey k = Some R.
Proof.
  unfold hasPermission. destruct (getRoleFromKey k) as [R|]; [|done].
  intros _. by exists R.
Qed.

(** C5, as amended.  An authorized POST whose body is falsy ([null],
    [false], [0], [NaN] or the empty string) is answered 400 like one
    without a body, and stores nothing.  Otherwise: when the body is a
    non-array object and the stored document is an array, or is absent or
    the JSON value [null] and so taken as the empty array, the handler
    appends the record built from the body, stores the array and answers 201
    with the record; when the body is not such an object, or the stored
    document is neither [null] nor an array, it stores the body as the
    entire file and answers 201.  What is stored is the JSON text of the
    value, as [reparse] reads it back.  The record carries the body's [id]
    if truthy and the fresh id otherwise, the request time as [createdAt],
    the role of the key as [createdBy], and the other fields of the body. *)
Theorem post_creates_or_replaces cfg env store req k f b :
  method req = "POST" →
  authorized cfg req k f →
  body req = Some b →
  (truthy b = false →
   handler cfg env store req
   = (bad_request "Request body required.", store)) ∧
  (is_plain_object b = true →
   ∀ items,
     ((store !! f = None ∨ store !! f = Some JNull) ∧ items = []) ∨
       store !! f = Some (JArr items) →
     handler cfg env store req =
       (respond 201
          (Some (JObj [("success", JBool true);
                       ("message", JStr "Record created.");
                       ("record", JObj (created_record env k b))])),
        <[f := reparse (JArr (items ++ [JObj (created_record env k b)]))]>
          store)) ∧
  (truthy b = true →
   is_plain_object b = false ∨
     (∃ d, store !! f = Some d ∧ d ≠ JNull ∧ isArray d = false) →
   handler cfg env store req =
     (respond 201 (Some (JObj [("success", JBool true);
                               ("message", JStr "File saved.")])),
      <[f := reparse b]> store)) ∧
  get (JObj (created_record env k b)) "id" =
    Some (match get b "id" with
          | Some v => if truthy v then v else JStr (fresh_id env)
          | None => JStr (fresh_id env)
          end) ∧
  get (JObj (created_record env k b)) "createdAt" = Some (JStr (now env)) ∧
  (∃ R, getRoleFromKey k = Some R ∧
        get (JObj (created_record env k b)) "createdBy" = Some (JStr R)) ∧
  (is_plain_object b = true → distinct_keys b →
   ∀ key, key ∉ ["id"; "createdAt"; "createdBy"] →
     get (JObj (created_record env k b)) key = get b key).
Proof.
  intros Hm Hauth Hb.
  assert (handler cfg env store req =
            match handle_post env store k f (Some b) with
            | Ok r => r
            | Throw =>
                (respond 500 (Some (JObj [("error", JStr "Server Error")])),
                 store)
            end) as Hh.
  { rewrite (handler_authorized _ _ _ _ k f); [|by rewrite Hm|done].
    unfold dispatch. by rewrite Hm, Hb. }
  split; [|split; [|split; [|split; [|split; [|split]]]]].
  - intros Ht. rewrite Hh. unfold handle_post. by rewrite Ht.
  - intros Hobj items Hstored. rewrite Hh. unfold handle_post, getBlob.
    destruct b; try done. cbn [truthy negb typeof_object isArray andb].
    by destruct Hstored as [[[-> | ->] ->] | ->].
  - intros Ht Hcase. rewrite Hh. unfold handle_post, getBlob. rewrite Ht.
    cbn [negb]. destruct Hcase as [Hobj | (d & Hd & Hnull & Harr)].
    + by destruct b.
    + rewrite Hd. destruct (typeof_object b && negb (isArray b))%bool;
        [|done]. by destruct d.
  - unfold created_record. cbn [get].
    rewrite assoc_obj_set_ne, assoc_obj_set_ne by done.
    apply assoc_obj_set_eq.
  - unfold created_record. cbn [get].
    rewrite assoc_obj_set_ne by done. apply assoc_obj_set_eq.
  - destruct Hauth as (_ & _ & _ & Hp).
    destruct (hasPermission_role _ _ _ Hp) as [R HR]. exists R.
    split; [done|]. unfold created_record, role_json. cbn [get].
    rewrite HR. apply assoc_obj_set_eq.
  - intros Hobj Hnd key Hkey. destruct b as [| | | | |ps]; try done.
    unfold created_record. cbn [get own_props].
    apply not_elem_of_cons in Hkey as [H1 Hkey].
    apply not_elem_of_cons in Hkey as [H2 Hkey].
    apply not_elem_of_cons in Hkey as [H3 _].
    rewrite !assoc_obj_set_ne by done.
    rewrite assoc_spread by exact Hnd. by destruct (assoc key ps).
Qed.

Lemma post_creates_or_replaces_witness :
  handler sample_cfg sample_env sample_store
    (sample_request "POST" "ses-ae-xyz" (Some "energy-profiles.json") None
       (Some (JObj [("name", JStr "loc2"); ("peak", JNum infinity)])))
  = (respond 201
       (Some (JObj [("success", JBool true);
                    ("message", JStr "Record created.");
                    ("record",
                     JObj [("name", JStr "loc2"); ("peak", JNum infinity);
                           ("id", JStr "1770292800000-k3j9x0q2a");
                           ("createdAt", JStr "2026-02-05T12:00:00.000Z");
                           ("createdBy", JStr "ae")])])),
     <[ "energy-profiles.json" :=
          JArr [sample_profile;
                JObj [("name", JStr "loc2"); ("peak", JNull);
                      ("id", JStr "1770292800000-k3j9x0q2a");
                      ("createdAt", JStr "2026-02-05T12:00:00.000Z");
                      ("createdBy", JStr "ae")]] ]> sample_store).
Proof.
  refine (proj1 (proj2 (post_creates_or_replaces sample_cfg sample_env
                          sample_store
                          (sample_request "POST" "ses-ae-xyz"
                             (Some "energy-profiles.json") None
                             (Some (JObj [("name", JStr "loc2");
                                          ("peak", JNum infinity)])))
                          "ses-ae-xyz" "energy-profiles.json"
                          (JObj [("name", JStr "loc2");
                                 ("peak", JNum infinity)])
                          _ _ _)) _ [sample_profile] _).
  - reflexivity.
  - repeat split; reflexivity.
  - reflexivity.
  - reflexivity.
  - right. reflexivity.
Defined.

(** C5, as stated, fails: the body [false] is present, the stored document
    is an object and not an array, and the POST is answered 400 instead of
    replacing the file. *)
Lemma post_falsy_body_rejected :
  ¬ (∀ cfg env store req k f b,
       method req = "POST" →
       authorized cfg req k f →
       body req = Some b →
       isArray b = true ∨ (∃ d, store !! f = Some d ∧ isArray d = false) →
       status_of (handler cfg env store req) = Some 201 ∧
       snd (handler cfg env store req) = <[f := reparse b]> store).
Proof.
  intros H.
  destruct (H sample_cfg sample_env sample_store
              (sample_request "POST" "ses-ae-xyz" (Some "contracts.json")
                 None (Some (JBool false)))
              "ses-ae-xyz" "contracts.json" (JBool false)) as [Habs _].
  - reflexivity.
  - repeat split; reflexivity.
  - reflexivity.
  - right. exists (JObj [("version", JNum 1)]). split; reflexivity.
  - discriminate Habs.
Qed.

End GatewayProps.

(** ** Properties of the merge *)

Module LmpProps.
Import Js LmpUpdater LmpSpec.

(** *** Monthly records *)

(** The zero guard of [mergeMonthlyData]: a zero incoming price leaves a
    stored record with a positive price alone and counts as unchanged. *)
Lemma merge_record_zero_guard d s record l i e :
  d !! iso record = Some l →
  findIndexKey (monthlyKey record) l = Some i →
  l !! i = Some e →
  positive (avg_da_lmp e) = true →
  PrimFloat.eqb (num_or (avg_da_lmp record) (num_or (lmp record) 0)) 0
    = true →
  merge_record (d, s) record = (d, bump_unchanged s).
Proof.
  intros Hd Hi He Hpos Hzero. unfold merge_record.
  cbv zeta. rewrite Hd. cbv beta iota. rewrite Hd. unfold default, id.
  cbn [from_option]. rewrite Hi, He.
  cbn [mbind option_bind normalize avg_da_lmp].
  by rewrite Hzero, Hpos.
Qed.

(** The zero guard on the specification's own example: 42.0 is kept. *)
Lemma zero_guard_keeps_positive_price lc :
  mergeMonthlyData lc (database_with 42) [stored_record 0]
  = (database_with 42, {| added := 0; updated := 0; unchanged := 1 |}).
Proof. reflexivity. Qed.

(** The final sort on a sample, under code-unit collation: the new record of
    zone AECO goes before the stored one of zone BGE. *)
Lemma merged_list_sorted_sample :
  data (mergeMonthlyData codeunit_compare
          {| data := {[ "PJM" := [
               {| iso := "PJM"; zone := "BGE"; zone_id := Some "BGE";
                  year := "2025"; month := "01";
                  avg_da_lmp := Some 39.5%float; lmp := None;
                  min_price := Some 20%float; max_price := Some 80%float;
                  record_count := Some 744%float |} ] ]};
             hourly := None |}
          [stored_record 42]).1 !! "PJM"
  = Some [stored_record 42;
          {| iso := "PJM"; zone := "BGE"; zone_id := Some "BGE";
             year := "2025"; month := "01";
             avg_da_lmp := Some 39.5%float; lmp := None;
             min_price := Some 20%float; max_price := Some 80%float;
             record_count := Some 744%float |}].
Proof. reflexivity. Qed.

(** C2 fails on a negative price.  The stored record has the non-zero price
    -5; an incoming record with the same key and a zero price overwrites it
    and is counted as updated: the guard tests [> 0], not [!== 0]. *)
Theorem zero_overwrites_negative_price lc :
  monthlyKey (stored_record 0) = monthlyKey (stored_record (-5)) ∧
  mergeMonthlyData lc (database_with (-5)) [stored_record 0]
  = (database_with 0, {| added := 0; updated := 1; unchanged := 0 |}).
Proof. split; reflexivity. Qed.

(** C3 fails on a record with an unpadded month.  The key of the incoming
    record is computed before normalization ([..._2025_1]), the key of the
    record stored for it after ([..._2025_01]): the second run does not find
    the record the first run stored, adds it again and reports one added. *)
Theorem second_run_adds_again lc :
  mergeMonthlyData lc empty_database [fetched_january]
  = ({| data := {[ "PJM" := [normalize fetched_january] ]};
        hourly := None |},
     {| added := 1; updated := 0; unchanged := 0 |}) ∧
  mergeMonthlyData lc
    {| data := {[ "PJM" := [normalize fetched_january] ]}; hourly := None |}
    [fetched_january]
  = ({| data := {[ "PJM" := [normalize fetched_january;
                             normalize fetched_january] ]};
        hourly := None |},
     {| added := 1; updated := 0; unchanged := 0 |}).
Proof.
  split; [reflexivity|].
  unfold mergeMonthlyData. simpl fold_left. cbv beta iota.
  f_equal. f_equal.
  assert (sort lc [normalize fetched_january; normalize fetched_january]
          = [normalize fetched_january; normalize fetched_january]) as Hs.
  { unfold sort. simpl. by destruct (Z.ltb 0 _). }
  vm_compute. vm_compute in Hs. by rewrite Hs.
Qed.

(** *** Hourly blocks *)

Section Hourly.

Implicit Types h : gmap string (gmap string (list hourly_record)).
Implicit Types incoming : gmap string (gmap string (list hourly_record)).
Implicit Types md : gmap string (list hourly_record).
Implicit Types s : hourly_stats.

Lemma hasNonZero_all_zero records :
  hasNonZero records = negb (all_zero records).
Proof.
  unfold hasNonZero, all_zero.
  induction records as [|r records IH]; simpl; [done|].
  rewrite IH. by destruct (PrimFloat.eqb (p r) 0).
Qed.

Lemma default_block h iso ym :
  default ∅ (h !! iso) !! ym = block h iso ym.
Proof. unfold block. by destruct (h !! iso). Qed.

Lemma block_insert h i m iso ym :
  block (<[i := m]> h) iso ym =
    if decide (iso = i) then m !! ym else block h iso ym.
Proof.
  unfold block. case_decide as E.
  - subst. by rewrite lookup_insert_eq.
  - by rewrite lookup_insert_ne.
Qed.

Lemma block_ensure h i iso ym :
  h !! i = None → block (<[i := ∅]> h) iso ym = block h iso ym.
Proof.
  intros Hi. rewrite block_insert. case_decide; [|done]. subst.
  unfold block. by rewrite Hi.
Qed.

(** One block. *)
Lemma merge_block_spec iso ym records h s :
  (∀ iso' ym',
     block (merge_block iso ym records (h, s)).1 iso' ym' =
       if decide (iso' = iso ∧ ym' = ym)
       then (if hasNonZero records then Some records else block h iso ym)
       else block h iso' ym') ∧
  skippedMonths (merge_block iso ym records (h, s)).2 =
    skippedMonths s + indicator (to_skip iso ym records) ∧
  addedMonths (merge_block iso ym records (h, s)).2 =
    addedMonths s + indicator (to_add h iso ym records) ∧
  updatedMonths (merge_block iso ym records (h, s)).2 =
    updatedMonths s + indicator (to_update h iso ym records).
Proof.
  unfold to_skip, to_add, to_update.
  destruct records as [|r records].
  { simpl. repeat split; try lia.
    intros iso' ym'. case_decide as E; [|done]. by destruct E as [-> ->]. }
  unfold merge_block. rewrite (hasNonZero_all_zero (r :: records)).
  destruct (all_zero (r :: records)) eqn:Hz; cbn [negb is_empty andb fst snd].
  - simpl. repeat split; try lia.
    intros iso' ym'. case_decide as E; [|done]. by destruct E as [-> ->].
  - rewrite default_block. split; [|].
    + intros iso' ym'. rewrite block_insert.
      destruct (decide (iso' = iso)) as [->|Hne].
      * destruct (decide (ym' = ym)) as [->|Hne'].
        -- rewrite lookup_insert_eq. by rewrite decide_True.
        -- rewrite lookup_insert_ne by done. rewrite default_block.
           rewrite decide_False; [done|]. by intros [_ ?].
      * rewrite decide_False; [done|]. by intros [? _].
    + destruct (block h iso ym) eqn:Hb; simpl.
      * repeat split; lia.
      * repeat split; lia.
Qed.

Lemma count_in_empty Q : count_in Q ∅ = 0.
Proof. unfold count_in. by rewrite map_fold_empty. Qed.

Lemma count_in_insert Q md ym records :
  md !! ym = None →
  map_first_key (<[ym := records]> md) ym →
  count_in Q (<[ym := records]> md) = count_in Q md + indicator (Q ym records).
Proof.
  intros Hn Hf. unfold count_in.
  rewrite map_fold_insert_first_key by done.
  destruct (Q ym records); simpl; lia.
Qed.

Lemma count_in_ext Q1 Q2 md :
  (∀ ym records, Q1 ym records = Q2 ym records) →
  count_in Q1 md = count_in Q2 md.
Proof.
  intros HQ. induction md as [|ym records md Hn Hf IH] using map_first_key_ind.
  - by rewrite !count_in_empty.
  - rewrite !count_in_insert by done. by rewrite IH, HQ.
Qed.

Lemma count_blocks_empty Q : count_blocks Q ∅ = 0.
Proof. unfold count_blocks. by rewrite map_fold_empty. Qed.

Lemma count_blocks_insert Q incoming iso md :
  incoming !! iso = None →
  map_first_key (<[iso := md]> incoming) iso →
  count_blocks Q (<[iso := md]> incoming) =
    count_blocks Q incoming + count_in (Q iso) md.
Proof.
  intros Hn Hf. unfold count_blocks.
  by rewrite map_fold_insert_first_key by done.
Qed.

(** The blocks of one ISO. *)
Lemma merge_blocks_spec iso md h s :
  (∀ iso' ym',
     block (map_fold (merge_block iso) (h, s) md).1 iso' ym' =
       if decide (iso' = iso)
       then match md !! ym' with
            | Some records =>
                if hasNonZero records then Some records else block h iso ym'
            | None => block h iso ym'
            end
       else block h iso' ym') ∧
  skippedMonths (map_fold (merge_block iso) (h, s) md).2 =
    skippedMonths s + count_in (to_skip iso) md ∧
  addedMonths (map_fold (merge_block iso) (h, s) md).2 =
    addedMonths s + count_in (to_add h iso) md ∧
  updatedMonths (map_fold (merge_block iso) (h, s) md).2 =
    updatedMonths s + count_in (to_update h iso) md.
Proof.
  induction md as [|ym records md Hn Hf IH] using map_first_key_ind.
  - rewrite map_fold_empty, !count_in_empty. simpl.
    split; [|repeat split; lia]. intros iso' ym'. rewrite lookup_empty.
    case_decide; by subst.
  - rewrite map_fold_insert_first_key by done.
    rewrite !count_in_insert by done.
    destruct (map_fold (merge_block iso) (h, s) md) as [h0 s0].
    destruct IH as (Hb & Hs & Ha & Hu). simpl in Hb, Hs, Ha, Hu.
    assert (block h0 iso ym = block h iso ym) as Hsame.
    { rewrite Hb, decide_True by done. by rewrite Hn. }
    destruct (merge_block_spec iso ym records h0 s0) as (Hb' & Hs' & Ha' & Hu').
    split; [|split; [|split]].
    + intros iso' ym'. rewrite Hb'.
      destruct (decide (iso' = iso)) as [->|Hne].
      * destruct (decide (ym' = ym)) as [->|Hne'].
        -- rewrite decide_True by done. rewrite lookup_insert_eq.
           by rewrite Hsame.
        -- rewrite decide_False by (by intros [_ ?]).
           rewrite lookup_insert_ne by done. rewrite Hb.
           by rewrite decide_True.
      * rewrite decide_False by (by intros [? _]). rewrite Hb.
        by rewrite decide_False.
    + rewrite Hs', Hs. lia.
    + rewrite Ha', Ha. unfold to_add. rewrite Hsame. lia.
    + rewrite Hu', Hu. unfold to_update. rewrite Hsame. lia.
Qed.

(** One ISO of the payload. *)
Lemma merge_iso_spec iso md h s :
  (∀ iso' ym',
     block (merge_iso iso md (h, s)).1 iso' ym' =
       if decide (iso' = iso)
       then match md !! ym' with
            | Some records =>
                if hasNonZero records then Some records else block h iso ym'
            | None => block h iso ym'
            end
       else block h iso' ym') ∧
  skippedMonths (merge_iso iso md (h, s)).2 =
    skippedMonths s + count_in (to_skip iso) md ∧
  addedMonths (merge_iso iso md (h, s)).2 =
    addedMonths s + count_in (to_add h iso) md ∧
  updatedMonths (merge_iso iso md (h, s)).2 =
    updatedMonths s + count_in (to_update h iso) md.
Proof.
  unfold merge_iso. destruct (h !! iso) as [m|] eqn:Hi.
  - apply merge_blocks_spec.
  - destruct (merge_blocks_spec iso md (<[iso := ∅]> h) s)
      as (Hb & Hs & Ha & Hu).
    assert (∀ iso' ym', block (<[iso := ∅]> h) iso' ym' = block h iso' ym')
      as Hsame by (intros; by apply block_ensure).
    split; [|split; [|split]].
    + intros iso' ym'. rewrite Hb, !Hsame. done.
    + done.
    + rewrite Ha. f_equal. apply count_in_ext. intros ym records.
      unfold to_add. by rewrite Hsame.
    + rewrite Hu. f_equal. apply count_in_ext. intros ym records.
      unfold to_update. by rewrite Hsame.
Qed.

(** The whole payload. *)
Lemma merge_payload_spec incoming h s :
  (∀ iso ym,
     block (map_fold merge_iso (h, s) incoming).1 iso ym =
       match block incoming iso ym with
       | Some records =>
           if hasNonZero records then Some records else block h iso ym
       | None => block h iso ym
       end) ∧
  skippedMonths (map_fold merge_iso (h, s) incoming).2 =
    skippedMonths s + count_blocks to_skip incoming ∧
  addedMonths (map_fold merge_iso (h, s) incoming).2 =
    addedMonths s + count_blocks (to_add h) incoming ∧
  updatedMonths (map_fold merge_iso (h, s) incoming).2 =
    updatedMonths s + count_blocks (to_update h) incoming.
Proof.
  induction incoming as [|i md incoming Hn Hf IH] using map_first_key_ind.
  - rewrite map_fold_empty, !count_blocks_empty. simpl.
    split; [|repeat split; lia]. intros iso ym. unfold block at 2.
    by rewrite lookup_empty.
  - rewrite map_fold_insert_first_key by done.
    rewrite !count_blocks_insert by done.
    destruct (map_fold merge_iso (h, s) incoming) as [h0 s0].
    destruct IH as (Hb & Hs & Ha & Hu). simpl in Hb, Hs, Ha, Hu.
    assert (∀ ym, block h0 i ym = block h i ym) as Hsame.
    { intros ym. rewrite Hb. unfold block at 1. by rewrite Hn. }
    destruct (merge_iso_spec i md h0 s0) as (Hb' & Hs' & Ha' & Hu').
    split; [|split; [|split]].
    + intros iso ym. rewrite Hb'. rewrite (block_insert incoming).
      destruct (decide (iso = i)) as [->|Hne].
      * rewrite Hsame. done.
      * apply Hb.
    + rewrite Hs', Hs. lia.
    + rewrite Ha', Ha.
      rewrite (count_in_ext (to_add h0 i) (to_add h i)); [lia|].
      intros ym records. unfold to_add. by rewrite Hsame.
    + rewrite Hu', Hu.
      rewrite (count_in_ext (to_update h0 i) (to_update h i)); [lia|].
      intros ym records. unfold to_update. by rewrite Hsame.
Qed.

(** C6, as amended.  For a payload whose ISOs and year-months name no
    member of [Object.prototype], [mergeHourlyData] (1) leaves the stored
    block untouched
    for every incoming block in which every price is zero, and counts as
    skipped those of them that are not empty (an empty block is passed over
    without being counted); (2) stores the incoming block in place of the
    stored one for every incoming block with a non-zero price, counted as
    added when no block was stored for the key and as updated otherwise;
    (3) leaves the block of every key that is not in the payload as it was.
    The monthly data is not touched. *)
Theorem mergeHourlyData_blocks db incoming :
  plain_keys incoming →
  ∃ h',
    (mergeHourlyData db (Some {| hourly_data := Some incoming |})).1
      = {| data := data db; hourly := Some h' |} ∧
    (∀ iso ym records,
       block incoming iso ym = Some records →
       all_zero records = true →
       block h' iso ym = block (default ∅ (hourly db)) iso ym) ∧
    (∀ iso ym records,
       block incoming iso ym = Some records →
       hasNonZero records = true →
       block h' iso ym = Some records) ∧
    (∀ iso ym,
       block incoming iso ym = None →
       block h' iso ym = block (default ∅ (hourly db)) iso ym) ∧
    skippedMonths
      (mergeHourlyData db (Some {| hourly_data := Some incoming |})).2
      = count_blocks to_skip incoming ∧
    addedMonths
      (mergeHourlyData db (Some {| hourly_data := Some incoming |})).2
      = count_blocks (to_add (default ∅ (hourly db))) incoming ∧
    updatedMonths
      (mergeHourlyData db (Some {| hourly_data := Some incoming |})).2
      = count_blocks (to_update (default ∅ (hourly db))) incoming.
Proof.
  intros _.
  unfold mergeHourlyData. cbn [mbind option_bind hourly_data].
  destruct (merge_payload_spec incoming (default ∅ (hourly db))
              no_hourly_stats) as (Hb & Hs & Ha & Hu).
  destruct (map_fold merge_iso (default ∅ (hourly db), no_hourly_stats)
              incoming) as [h' s'].
  simpl in Hb, Hs, Ha, Hu. exists h'. cbn [fst snd].
  split; [done|]. split; [|split; [|split; [|by repeat split]]].
  - intros iso ym records Hin Hz. rewrite Hb, Hin.
    by rewrite hasNonZero_all_zero, Hz.
  - intros iso ym records Hin Hnz. by rewrite Hb, Hin, Hnz.
  - intros iso ym Hin. by rewrite Hb, Hin.
Qed.

Lemma mergeHourlyData_blocks_witness :
  ∃ h',
    (mergeHourlyData sample_hourly_database
       (Some {| hourly_data := Some sample_hourly_payload |})).1
      = {| data := data sample_hourly_database; hourly := Some h' |} ∧
    (∀ iso ym records,
       block sample_hourly_payload iso ym = Some records →
       all_zero records = true →
       block h' iso ym
       = block (default ∅ (hourly sample_hourly_database)) iso ym) ∧
    (∀ iso ym records,
       block sample_hourly_payload iso ym = Some records →
       hasNonZero records = true →
       block h' iso ym = Some records) ∧
    (∀ iso ym,
       block sample_hourly_payload iso ym = None →
       block h' iso ym
       = block (default ∅ (hourly sample_hourly_database)) iso ym) ∧
    skippedMonths
      (mergeHourlyData sample_hourly_database
         (Some {| hourly_data := Some sample_hourly_payload |})).2
      = count_blocks to_skip sample_hourly_payload ∧
    addedMonths
      (mergeHourlyData sample_hourly_database
         (Some {| hourly_data := Some sample_hourly_payload |})).2
      = count_blocks (to_add (default ∅ (hourly sample_hourly_database)))
          sample_hourly_payload ∧
    updatedMonths
      (mergeHourlyData sample_hourly_database
         (Some {| hourly_data := Some sample_hourly_payload |})).2
      = count_blocks (to_update (default ∅ (hourly sample_hourly_database)))
          sample_hourly_payload.
Proof.
  apply (mergeHourlyData_blocks sample_hourly_database sample_hourly_payload).
  unfold plain_keys. apply (bool_decide_unpack _). vm_compute. exact I.
Defined.

(** C6, as stated, fails on its skip count: in an empty block every price is
    zero, yet the block is passed over without being counted as skipped. *)
Lemma empty_block_not_counted_as_skipped :
  ¬ (∀ db incoming,
       skippedMonths
         (mergeHourlyData db (Some {| hourly_data := Some incoming |})).2
       = count_blocks (λ _ _ records, all_zero records) incoming).
Proof.
  intros H. specialize (H sample_hourly_database (sample_payload [])).
  vm_compute in H. discriminate H.
Qed.

(** The specification's scenario: the block of ISONE 2025-01 is replaced by
    an incoming block with one non-zero price, the block of 2025-02, which
    the payload does not carry, is as before. *)
Lemma hourly_block_atomicity :
  ∃ h',
    hourly (mergeHourlyData sample_hourly_database
              (Some {| hourly_data :=
                         Some (sample_payload
                                 [hour "2025-01-01T00:00:00" 0%float;
                                  hour "2025-01-01T01:00:00" 30.75%float])
                    |})).1 = Some h' ∧
    block h' "ISONE" "2025-01"
      = Some [hour "2025-01-01T00:00:00" 0%float;
              hour "2025-01-01T01:00:00" 30.75%float] ∧
    block h' "ISONE" "2025-02"
      = Some [hour "2025-02-01T00:00:00" 28.25%float].
Proof. eexists. split; [reflexivity|]. split; reflexivity. Qed.
End Hourly.

End LmpProps.

(** ** More of the gateway: gates, frames and round trips *)

Module GatewayMore.
Import Js SecureDataAPI GatewaySpec GatewayProps.

(** *** Keys and roles *)

Lemma split_no_dash r rest :
  no_dash r = true →
  split "-" (r +:+ String "-" rest) = r :: split "-" rest.
Proof.
  induction r as [|c r IH]; simpl; [done|].
  intros [Hc Hr]%andb_true_iff. apply negb_true_iff in Hc.
  rewrite Hc. by rewrite IH.
Qed.

Lemma split_no_dash_end r : no_dash r = true → split "-" r = [r].
Proof.
  induction r as [|c r IH]; simpl; [done|].
  intros [Hc Hr]%andb_true_iff. apply negb_true_iff in Hc.
  rewrite Hc. by rewrite IH.
Qed.

Lemma split_inv k :
  ∃ p ps, split "-" k = p :: ps ∧ no_dash p = true ∧
    match ps with
    | [] => k = p
    | _ :: _ => ∃ rest, k = p +:+ String "-" rest ∧ split "-" rest = ps
    end.
Proof.
  induction k as [|c k (p & ps & Hs & Hp & Hk)]; simpl.
  - by exists "", [].
  - destruct (Ascii.eqb c "-") eqn:Hc.
    + apply Ascii.eqb_eq in Hc. subst c.
      exists "", (p :: ps). split; [by rewrite Hs|]. split; [done|].
      by exists k.
    + rewrite Hs. exists (String c p), ps. split; [done|]. split.
      * simpl. by rewrite Hc, Hp.
      * destruct ps as [|q ps]; [by subst|].
        destruct Hk as (rest & -> & Hrest). by exists rest.
Qed.

(** X1.  A key resolves to the role [R] exactly when [R] has no ['-'] and
    the key is [ses-R], or [ses-R-] followed by anything: the role is the
    second segment, and nothing after it matters. *)
Theorem getRoleFromKey_iff k R :
  getRoleFromKey k = Some R ↔
  no_dash R = true ∧
  (k = "ses-" +:+ R ∨ ∃ rest, k = "ses-" +:+ R +:+ String "-" rest).
Proof.
  unfold getRoleFromKey. split.
  - destruct (split_inv k) as (p0 & ps & Hs & Hp0 & Hk). rewrite Hs.
    destruct ps as [|p1 ps]; [done|].
    destruct (String.eqb p0 "ses") eqn:E; [|done]. intros [= ->].
    apply String.eqb_eq in E. subst p0.
    destruct Hk as (rest & -> & Hrest).
    destruct (split_inv rest) as (q & qs & Hq & Hnd & Hr).
    rewrite Hq in Hrest. injection Hrest as -> ->. split; [done|].
    destruct ps as [|p2 ps]; [left; by subst|].
    right. destruct Hr as (rest' & -> & _). by exists rest'.
  - intros (Hnd & [-> | (rest & ->)]).
    + change ("ses-" +:+ R) with ("ses" +:+ String "-" R).
      rewrite split_no_dash by done. by rewrite split_no_dash_end.
    + change ("ses-" +:+ R +:+ String "-" rest)
        with ("ses" +:+ String "-" (R +:+ String "-" rest)).
      rewrite split_no_dash by done. by rewrite split_no_dash.
Qed.

(** *** What a response says about the request and the store *)

Lemma handle_get_outcome store f rid r s' :
  handle_get store f rid = Ok (r, s') →
  s' = store ∧ (status <$> r = Some 200 ∨ status <$> r = Some 404).
Proof.
  unfold handle_get. destruct (getBlob store f) as [data|];
    [|intros [= <- <-]; auto].
  destruct (nonempty rid) as [id|]; [|intros [= <- <-]; auto].
  destruct data; try (intros [= <- <-]; auto).
  destruct (find id items) as [[record|]|]; simpl;
    [intros [= <- <-]; auto..|done].
Qed.

Lemma handle_post_outcome env store k f b r s' :
  handle_post env store k f b = Ok (r, s') →
  (s' = store ∧ status <$> r = Some 400) ∨
  (status <$> r = Some 201 ∧ ∃ d, s' = <[f := d]> store).
Proof.
  unfold handle_post. destruct b as [newData|]; [|intros [= <- <-]; auto].
  destruct (truthy newData); simpl; [|intros [= <- <-]; auto].
  destruct (typeof_object newData && negb (isArray newData))%bool.
  - destruct (getBlob store f) as [[]|]; intros [= <- <-]; right; eauto.
  - intros [= <- <-]; right; eauto.
Qed.

Lemma handle_put_outcome env store k f rid b r s' :
  handle_put env store k f rid b = Ok (r, s') →
  (s' = store ∧ (status <$> r = Some 400 ∨ status <$> r = Some 404)) ∨
  (status <$> r = Some 200 ∧ ∃ d, s' = <[f := d]> store).
Proof.
  unfold handle_put. destruct (nonempty rid) as [id|].
  - destruct (getBlob store f) as [[| | | |items|]|];
      try (intros [= <- <-]; auto).
    destruct (findIndex id items) as [[i|]|]; simpl;
      [|intros [= <- <-]; auto|done].
    destruct (items !! i); [|done]. intros [= <- <-]; right; eauto.
  - destruct b; simpl; [|done]. intros [= <- <-]; right; eauto.
Qed.

Lemma handle_delete_outcome store f rid r s' :
  handle_delete store f rid = Ok (r, s') →
  (s' = store ∧ (status <$> r = Some 400 ∨ status <$> r = Some 404)) ∨
  (status <$> r = Some 200 ∧
   ((∃ d, s' = <[f := d]> store) ∨ s' = delete f store)).
Proof.
  unfold handle_delete, deleteBlob. destruct (nonempty rid) as [id|].
  - destruct (getBlob store f) as [[| | | |items|]|];
      try (intros [= <- <-]; auto).
    destruct (remove id items) as [items'|]; simpl; [|done].
    destruct (Nat.eqb (length items') (length items));
      intros [= <- <-]; [auto|right; eauto].
  - destruct (store !! f); intros [= <- <-]; [right|left]; auto.
Qed.

(** The body of the [try]: either the store is as it was, or the method is
    POST, PUT or DELETE, the answer is 200 or 201, and at most the blob of
    the route differs. *)
Lemma dispatch_outcome env store req k f r s' :
  dispatch env store req k f = Ok (r, s') →
  (s' = store ∧
   (r = None ∨ status <$> r = Some 200 ∨ status <$> r = Some 400 ∨
    status <$> r = Some 404)) ∨
  ((status <$> r = Some 200 ∨ status <$> r = Some 201) ∧
   (∀ g, g ≠ f → s' !! g = store !! g) ∧
   (method req = "POST" ∨ method req = "PUT" ∨ method req = "DELETE")).
Proof.
  unfold dispatch.
  destruct (String.eqb (method req) "GET") eqn:Hg.
  { intros [-> H]%handle_get_outcome. left. split; [done|]. tauto. }
  destruct (String.eqb (method req) "POST") eqn:Hpost.
  { apply String.eqb_eq in Hpost.
    intros [[-> H] | [H (d & ->)]]%handle_post_outcome; [left; tauto|].
    right. split; [tauto|]. split; [|tauto].
    intros g Hne. by rewrite lookup_insert_ne. }
  destruct (String.eqb (method req) "PUT") eqn:Hput.
  { apply String.eqb_eq in Hput.
    intros [[-> H] | [H (d & ->)]]%handle_put_outcome; [left; tauto|].
    right. split; [tauto|]. split; [|tauto].
    intros g Hne. by rewrite lookup_insert_ne. }
  destruct (String.eqb (method req) "DELETE") eqn:Hdel.
  { apply String.eqb_eq in Hdel.
    intros [[-> H] | [H Hs]]%handle_delete_outcome; [left; tauto|].
    right. split; [tauto|]. split; [|tauto].
    intros g Hne. destruct Hs as [(d & ->) | ->].
    - by rewrite lookup_insert_ne.
    - by rewrite lookup_delete_ne. }
  intros [= <- <-]. left. auto.
Qed.

(** The five ways through the handler. *)
Lemma handler_outcome cfg env store req :
  (method req = "OPTIONS" ∧
   handler cfg env store req = (respond 204 None, store)) ∨
  (method req ≠ "OPTIONS" ∧
   (∀ k, presented_key req = Some k → includes (validKeys cfg) k = false) ∧
   status_of (handler cfg env store req) = Some 401 ∧
   snd (handler cfg env store req) = store) ∨
  (method req ≠ "OPTIONS" ∧
   (∃ k, presented_key req = Some k ∧ includes (validKeys cfg) k = true) ∧
   nonempty (params_filename req) = None ∧
   status_of (handler cfg env store req) = Some 400 ∧
   snd (handler cfg env store req) = store) ∨
  (method req ≠ "OPTIONS" ∧
   (∃ k f, presented_key req = Some k ∧
           includes (validKeys cfg) k = true ∧
           nonempty (params_filename req) = Some f ∧
           hasPermission k f (operation_of (method req)) = false) ∧
   status_of (handler cfg env store req) = Some 403 ∧
   snd (handler cfg env store req) = store) ∨
  (method req ≠ "OPTIONS" ∧
   ∃ k f, authorized cfg req k f ∧
     ((dispatch env store req k f = Throw ∧
       status_of (handler cfg env store req) = Some 500 ∧
       snd (handler cfg env store req) = store) ∨
      dispatch env store req k f = Ok (handler cfg env store req))).
Proof.
  unfold handler, status_of.
  destruct (String.eqb (method req) "OPTIONS") eqn:Hm.
  { apply String.eqb_eq in Hm. by left. }
  apply String.eqb_neq in Hm. right.
  destruct (presented_key req) as [k|] eqn:Hk; [|left; by repeat split].
  destruct (includes (validKeys cfg) k) eqn:Hv; simpl;
    [|left; repeat split; try done; by intros ? [= <-]].
  right. destruct (nonempty (params_filename req)) as [f|] eqn:Hf;
    [|left; repeat split; try done; by exists k].
  right. destruct (hasPermission k f (operation_of (method req))) eqn:Hp;
    simpl; [|left; repeat split; try done; by exists k, f].
  right. split; [done|]. exists k, f. split; [by repeat split|].
  destruct (dispatch env store req k f) as [r|]; [by right|by left].
Qed.

(** X2.  A request that is answered with anything but 200 or 201, or not
    answered, leaves the store as it was. *)
Theorem failure_persists_nothing cfg env store req :
  status_of (handler cfg env store req) ≠ Some 200 →
  status_of (handler cfg env store req) ≠ Some 201 →
  snd (handler cfg env store req) = store.
Proof.
  intros H200 H201.
  destruct (handler_outcome cfg env store req)
    as [[_ ->] | [(_ & _ & _ & ?) | [(_ & _ & _ & _ & ?) |
        [(_ & _ & _ & ?) | (_ & k & f & _ & [(_ & _ & ?) | Hd])]]]];
    try done.
  destruct (handler cfg env store req) as [r s'].
  apply dispatch_outcome in Hd as [[-> _] | [[H | H] _]]; done.
Qed.

(** X3.  When the store changes, the request was authenticated, the role of
    its key has the write (POST, PUT) or delete (DELETE) permission on the
    document of the route, and no other blob differs. *)
Theorem store_changes_only_with_permission cfg env store req :
  snd (handler cfg env store req) ≠ store →
  ∃ k f,
    authorized cfg req k f ∧
    (method req = "POST" ∨ method req = "PUT" ∨ method req = "DELETE") ∧
    ∀ g, g ≠ f → snd (handler cfg env store req) !! g = store !! g.
Proof.
  intros Hne.
  destruct (handler_outcome cfg env store req)
    as [[_ Hh] | [(_ & _ & _ & ?) | [(_ & _ & _ & _ & ?) |
        [(_ & _ & _ & ?) | (_ & k & f & Hauth & [(_ & _ & ?) | Hd])]]]];
    try done.
  { by rewrite Hh in Hne. }
  exists k, f. split; [done|].
  destruct (handler cfg env store req) as [r s'].
  apply dispatch_outcome in Hd as [[-> _] | (_ & Hframe & Hm)]; done.
Qed.

(** X4.  401 is the answer exactly to the requests other than OPTIONS that
    present no key or a key that is not in the configured list. *)
Theorem unauthorized_iff cfg env store req :
  status_of (handler cfg env store req) = Some 401 ↔
  method req ≠ "OPTIONS" ∧
  ∀ k, presented_key req = Some k → includes (validKeys cfg) k = false.
Proof.
  split.
  - intros H401.
    destruct (handler_outcome cfg env store req)
      as [[_ Hh] | [(? & ? & _) | [(_ & _ & _ & H & _) |
          [(_ & _ & H & _) | (_ & k & f & _ & [(_ & H & _) | Hd])]]]];
      try done; try congruence.
    { by rewrite Hh in H401. }
    unfold status_of in H401.
    destruct (handler cfg env store req) as [r s'].
    apply dispatch_outcome in Hd as [[_ [-> | [H | [H | H]]]] | [[H | H] _]];
      simpl in *; congruence.
  - intros [Hm Hk]. unfold handler, status_of.
    apply String.eqb_neq in Hm. rewrite Hm.
    destruct (presented_key req) as [k|]; [|done].
    by rewrite (Hk k eq_refl).
Qed.

(** X5.  403 is the answer exactly to the authenticated requests that name a
    document on which the role of the key lacks the permission the method
    asks for. *)
Theorem forbidden_iff cfg env store req :
  status_of (handler cfg env store req) = Some 403 ↔
  method req ≠ "OPTIONS" ∧
  ∃ k f, presented_key req = Some k ∧
         includes (validKeys cfg) k = true ∧
         nonempty (params_filename req) = Some f ∧
         hasPermission k f (operation_of (method req)) = false.
Proof.
  split.
  - intros H403.
    destruct (handler_outcome cfg env store req)
      as [[_ Hh] | [(_ & _ & H & _) | [(_ & _ & _ & H & _) |
          [(? & ? & _) | (_ & k & f & _ & [(_ & H & _) | Hd])]]]];
      try done; try congruence.
    { by rewrite Hh in H403. }
    unfold status_of in H403.
    destruct (handler cfg env store req) as [r s'].
    apply dispatch_outcome in Hd as [[_ [-> | [H | [H | H]]]] | [[H | H] _]];
      simpl in *; congruence.
  - intros (Hm & k & f & Hk & Hv & Hf & Hp). unfold handler, status_of.
    apply String.eqb_neq in Hm. by rewrite Hm, Hk, Hv, Hf, Hp.
Qed.

(** *** Locating records *)

Lemma matches_null id : matches id JNull = Throw.
Proof. done. Qed.

Lemma matches_not_null id item :
  is_null item = false → matches id item = Ok (has_id id item).
Proof.
  unfold has_id, matches, get_prop. destruct item; try done;
    simpl; repeat (destruct (strict_eq_str _ id); try done).
Qed.

Lemma remove_null id items : JNull ∈ items → remove id items = Throw.
Proof.
  induction items as [|item items IH]; [by intros ?%elem_of_nil|].
  intros [<- | Hin]%elem_of_cons; simpl; [done|].
  rewrite (IH Hin). by destruct (matches id item).
Qed.

(** X7.  Removal inspects every element.  It throws when the array holds a
    [null]; otherwise it keeps, in order, exactly the elements that do not
    carry the id in [id], [_id] or [profileId]. *)
Theorem remove_filter id items :
  remove id items =
    if existsb is_null items then Throw
    else Ok (List.filter (λ item, negb (has_id id item)) items).
Proof.
  induction items as [|item items IH]; simpl; [done|].
  destruct (is_null item) eqn:Hn.
  - destruct item; try done.
  - rewrite (matches_not_null _ _ Hn). simpl. rewrite IH.
    destruct (existsb is_null items); simpl; [done|].
    by destruct (has_id id item).
Qed.

Lemma findIndex_from_spec n id items j :
  findIndex_from n id items = Ok (Some j) →
  ∃ i e, j = n + i ∧ items !! i = Some e ∧ matches id e = Ok true ∧
         Forall (λ x, matches id x = Ok false) (take i items).
Proof.
  revert n. induction items as [|item items IH]; intros n; simpl; [done|].
  destruct (matches id item) as [[]|] eqn:Hm; simpl; [| |done].
  - intros [= <-]. exists 0, item. repeat split; [lia|done|constructor].
  - intros (i & e & -> & He & Hme & Hpre)%IH.
    exists (S i), e. repeat split; [lia|done..|by constructor].
Qed.

Lemma find_skip id pre rest :
  Forall (λ x, matches id x = Ok false) pre →
  find id (pre ++ rest) = find id rest.
Proof.
  induction 1 as [|x pre Hx _ IH]; simpl; [done|]. by rewrite Hx.
Qed.

Lemma find_findIndex_from n id items :
  match findIndex_from n id items with
  | Ok (Some j) =>
      ∃ i, j = n + i ∧ i < length items ∧ find id items = Ok (items !! i)
  | Ok None => find id items = Ok None
  | Throw => find id items = Throw
  end.
Proof.
  revert n. induction items as [|item items IH]; intros n; simpl; [done|].
  destruct (matches id item) as [[]|]; simpl; [| |done].
  - exists 0. repeat split; lia.
  - specialize (IH (S n)).
    destruct (findIndex_from (S n) id items) as [[j|]|]; try done.
    destruct IH as (i & -> & Hi & Hf). exists (S i).
    repeat split; [lia..|done].
Qed.

(** X8.  [find] and [findIndex] agree: GET reads the element PUT rewrites. *)
Theorem find_at_findIndex id items :
  match findIndex id items with
  | Ok (Some i) => i < length items ∧ find id items = Ok (items !! i)
  | Ok None => find id items = Ok None
  | Throw => find id items = Throw
  end.
Proof.
  pose proof (find_findIndex_from 0 id items) as H. unfold findIndex.
  destruct (findIndex_from 0 id items) as [[j|]|]; try done.
  destruct H as (i & -> & Hi & Hf). by split.
Qed.

(** *** Permissions *)

Lemma write_within_read R p :
  own_entry R FILE_PERMISSIONS = Some p →
  ∀ f, includes (perm_write p) f = true → includes (perm_read p) f = true.
Proof.
  unfold FILE_PERMISSIONS. cbn [own_entry].
  repeat (destruct (String.eqb _ R);
          [intros [= <-] f; rewrite !includes_elem_of;
           cbn [perm_write perm_read]; set_solver|]).
  done.
Qed.

Lemma hasPermission_write_read k f :
  hasPermission k f OpWrite = true → hasPermission k f OpRead = true.
Proof.
  unfold hasPermission, table_get.
  destruct (getRoleFromKey k) as [R|]; [|done].
  destruct (String.eqb R ""); [done|].
  destruct (own_entry R FILE_PERMISSIONS) as [p|] eqn:E.
  - simpl. by apply write_within_read with R.
  - by destruct (includes object_prototype_names R).
Qed.

Lemma authorized_get cfg req k f id :
  authorized cfg req k f →
  method req = "POST" ∨ method req = "PUT" ∨ method req = "DELETE" →
  authorized cfg (with_route "GET" id req) k f.
Proof.
  intros (Hk & Hv & Hf & Hp) Hm. repeat split; try done. simpl.
  destruct Hm as [Hm | [Hm | Hm]]; rewrite Hm in Hp.
  - by apply hasPermission_write_read.
  - by apply hasPermission_write_read.
  - by apply hasPermission_delete_read.
Qed.

(** *** Create, update, replace and delete, then read *)

Lemma matches_created id ps :
  assoc "id" ps = Some (JStr id) → matches id (JObj ps) = Ok true.
Proof.
  intros H. unfold matches. simpl. rewrite H. simpl.
  by rewrite String.eqb_refl.
Qed.


Lemma no_match_reparse_clean id items :
  Forall (λ x, matches id x = Ok false) items →
  existsb non_finite items = false →
  Forall (λ x, matches id x = Ok false) (reparse <$> items).
Proof.
  induction 1 as [|x items Hx _ IH]; [constructor|].
  cbn [existsb]. intros [Hn Hrest]%orb_false_elim.
  rewrite fmap_cons. constructor; [|by apply IH].
  by rewrite matches_reparse, Hn.
Qed.

Lemma matches_reparse_created id ps :
  assoc "id" ps = Some (JStr id) → matches id (reparse (JObj ps)) = Ok true.
Proof.
  intros H. rewrite matches_reparse. cbn [non_finite].
  by apply matches_created.
Qed.


(** X10.  A record updated by PUT under the id of its [id] field can be read
    back under that id.  When no element before it is a number written as
    [null], a GET of the id after the PUT is answered 200 with the updated
    record as it is read back from the store. *)
Theorem put_then_get cfg env env' store req k f id items i existing :
  method req = "PUT" →
  authorized cfg req k f →
  nonempty (params_id req) = Some id →
  getBlob store f = Some (JArr items) →
  findIndex id items = Ok (Some i) →
  items !! i = Some existing →
  get existing "id" = Some (JStr id) →
  existsb non_finite (take i items) = false →
  handler cfg env' (snd (handler cfg env store req)) (with_method "GET" req)
  = (respond 200
       (Some (reparse (JObj (updated_record env k existing (body req))))),
     snd (handler cfg env store req)).
Proof.
  intros Hm Hauth Hid Hg Hi He Hexid Hfin.
  rewrite (put_record_update cfg env store req k f id items i existing)
    by done.
  cbn [snd].
  change (reparse (JArr (<[i := JObj (updated_record env k existing
                                        (body req))]> items)))
    with (JArr (reparse <$> <[i := JObj (updated_record env k existing
                                           (body req))]> items)).
  rewrite list_fmap_insert.
  rewrite (handler_authorized _ _ _ _ k f); [|done|].
  - unfold dispatch, handle_get. cbn [with_method method params_id].
    cbn [String.eqb Ascii.eqb Bool.eqb]. rewrite getBlob_insert_array, Hid.
    apply findIndex_from_spec in Hi as (i' & e & Hii & He' & _ & Hpre).
    simpl in Hii. subst i'.
    rewrite insert_take_drop
      by (rewrite length_fmap; by eapply lookup_lt_Some).
    rewrite <-fmap_take.
    rewrite find_skip by (by apply no_match_reparse_clean).
    cbn [find].
    destruct (updated_record_fields env k existing (body req)) as (Hrid & _).
    cbn [get] in Hrid. rewrite Hexid in Hrid.
    by rewrite (matches_reparse_created _ _ Hrid).
  - change (with_method "GET" req)
      with (with_route "GET" (params_id req) req).
    apply authorized_get; [done|by right; left].
Qed.

(** X11.  A record update is a merge.  Apart from [id], [createdAt],
    [updatedAt] and [updatedBy], a field reads as the body gives it when the
    body carries it, and as it was on the existing record otherwise. *)
Theorem updated_record_merge env k es ps key :
  NoDup es.*1 →
  NoDup ps.*1 →
  key ∉ ["id"; "createdAt"; "updatedAt"; "updatedBy"] →
  get (JObj (updated_record env k (JObj es) (Some (JObj ps)))) key =
    match assoc key ps with
    | Some v => Some v
    | None => assoc key es
    end.
Proof.
  intros Hes Hps Hkey.
  apply not_elem_of_cons in Hkey as [H1 Hkey].
  apply not_elem_of_cons in Hkey as [H2 Hkey].
  apply not_elem_of_cons in Hkey as [H3 Hkey].
  apply not_elem_of_cons in Hkey as [H4 _].
  unfold updated_record. cbn [get own_props].
  rewrite !assoc_obj_set_ne by done.
  rewrite !assoc_obj_set_opt_ne by done.
  rewrite !assoc_spread by done. simpl.
  by destruct (assoc key ps), (assoc key es).
Qed.

(** X12.  A [null] among the elements of the array makes every DELETE of a
    record from it fail with 500, the store being left as it was. *)
Theorem delete_with_null_element cfg env store req k f id items :
  method req = "DELETE" →
  authorized cfg req k f →
  nonempty (params_id req) = Some id →
  store !! f = Some (JArr items) →
  JNull ∈ items →
  status_of (handler cfg env store req) = Some 500 ∧
  snd (handler cfg env store req) = store.
Proof.
  intros Hm Hauth Hid Hs Hnull.
  rewrite (handler_authorized _ _ _ _ k f); [|by rewrite Hm|done].
  unfold dispatch, handle_delete, getBlob. rewrite Hm. simpl.
  rewrite Hid, Hs. by rewrite (remove_null _ _ Hnull).
Qed.

(** X13.  A whole-file PUT stores under the name of the route what is read
    back from the JSON text of the body, and a GET of the document then
    returns it; unless the body is [null] or a number written as [null],
    which GET answers with 404 like a missing document. *)
Theorem put_file_then_get cfg env env' store req k f b :
  method req = "PUT" →
  authorized cfg req k f →
  nonempty (params_id req) = None →
  body req = Some b →
  snd (handler cfg env store req) = <[f := reparse b]> store ∧
  status_of (handler cfg env store req) = Some 200 ∧
  handler cfg env' (<[f := reparse b]> store) (with_method "GET" req)
  = (if (is_null b || non_finite b)%bool then not_found f
     else respond 200 (Some (reparse b)),
     <[f := reparse b]> store).
Proof.
  intros Hm Hauth Hid Hb.
  rewrite (handler_authorized _ _ _ _ k f); [|by rewrite Hm|done].
  unfold dispatch, handle_put. rewrite Hm, Hid, Hb.
  cbn [String.eqb Ascii.eqb Bool.eqb saveBlob mbind result_bind fst snd].
  split; [done|]. split; [done|].
  rewrite (handler_authorized _ _ _ _ k f); [|done|].
  - unfold dispatch, handle_get, getBlob.
    cbn [with_method method params_id String.eqb Ascii.eqb Bool.eqb].
    rewrite lookup_insert_eq, Hid, <-is_null_reparse.
    by destruct (reparse b).
  - change (with_method "GET" req)
      with (with_route "GET" (params_id req) req).
    apply authorized_get; [done|by right; left].
Qed.

(** X14.  A whole-file DELETE is answered 200 when the blob exists and 404
    when it does not; afterwards the blob is gone, and a GET of it and the
    same DELETE repeated are answered 404. *)
Theorem delete_file_then_get cfg env env1 env2 store req k f :
  method req = "DELETE" →
  authorized cfg req k f →
  nonempty (params_id req) = None →
  status_of (handler cfg env store req)
    = Some (if bool_decide (store !! f = None) then 404 else 200) ∧
  snd (handler cfg env store req) !! f = None ∧
  status_of (handler cfg env1 (snd (handler cfg env store req))
               (with_method "GET" req)) = Some 404 ∧
  status_of (handler cfg env2 (snd (handler cfg env store req)) req)
    = Some 404.
Proof.
  intros Hm Hauth Hid.
  assert (handler cfg env store req
          = (respond (if bool_decide (store !! f = None) then 404 else 200)
               (Some (JObj [("success",
                             JBool (negb (bool_decide (store !! f = None))));
                            ("message",
                             JStr (if bool_decide (store !! f = None)
                                   then "File not found."
                                   else "File deleted."))])),
             delete f store)) as Hh.
  { rewrite (handler_authorized _ _ _ _ k f); [|by rewrite Hm|done].
    unfold dispatch, handle_delete, deleteBlob. rewrite Hm, Hid. simpl.
    destruct (store !! f) eqn:Hs; simpl; [done|].
    by rewrite delete_id. }
  rewrite Hh. cbn [snd]. split; [done|].
  split; [apply lookup_delete_eq|]. split.
  - rewrite (handler_authorized _ _ _ _ k f); [|done|].
    + unfold dispatch, handle_get, getBlob. simpl.
      by rewrite lookup_delete_eq.
    + change (with_method "GET" req)
        with (with_route "GET" (params_id req) req).
      apply authorized_get; [done|by right; right].
  - rewrite (handler_authorized _ _ _ _ k f); [|by rewrite Hm|done].
    unfold dispatch, handle_delete, deleteBlob. rewrite Hm, Hid. simpl.
    by rewrite lookup_delete_eq.
Qed.

(** *** CORS *)

(** X15.  The origin sent back is the origin of the request when that is in
    the allow-list, and otherwise the first entry of the list or ["*"]: an
    origin outside the list is never echoed. *)
Theorem corsOrigin_listed allowedOrigins req :
  (requestOrigin req ∈ allowedOrigins →
   corsOrigin allowedOrigins req = requestOrigin req) ∧
  (corsOrigin allowedOrigins req = "*" ∨
   corsOrigin allowedOrigins req ∈ allowedOrigins).
Proof.
  unfold corsOrigin. split.
  - intros Hin. apply includes_elem_of in Hin. by rewrite Hin.
  - destruct (includes allowedOrigins (requestOrigin req)) eqn:Hin.
    + right. by apply includes_elem_of.
    + destruct allowedOrigins as [|first rest]; [by left|].
      destruct (String.eqb first ""); [by left|]. right. left.
Qed.

Lemma hasPermission_allowed k R f op :
  getRoleFromKey k = Some R →
  hasPermission k f op = true → f ∈ allow_set R op.
Proof.
  unfold hasPermission, allow_set, table_get. intros ->.
  destruct (String.eqb R ""); [done|].
  destruct (own_entry R FILE_PERMISSIONS) as [p|].
  - apply includes_elem_of.
  - by destruct (includes object_prototype_names R).
Qed.

(** X6.  A key whose role has neither a write nor a delete permission, such
    as [readonly] or a role the table does not list, never changes the
    store, whatever it asks. *)
Theorem no_permission_no_change cfg env store req k R :
  presented_key req = Some k →
  getRoleFromKey k = Some R →
  allow_set R OpWrite = [] →
  allow_set R OpDelete = [] →
  snd (handler cfg env store req) = store.
Proof.
  intros Hk HR Hw Hd.
  destruct (handler_outcome cfg env store req)
    as [[_ ->] | [(_ & _ & _ & ?) | [(_ & _ & _ & _ & ?) |
        [(_ & _ & _ & ?) | (_ & k' & f & Hauth & [(_ & _ & ?) | Hdisp])]]]];
    try done.
  destruct (handler cfg env store req) as [r s'].
  apply dispatch_outcome in Hdisp as [[-> _] | (_ & _ & Hm)]; [done|].
  exfalso. destruct Hauth as (Hk' & _ & _ & Hp).
  rewrite Hk in Hk'. injection Hk' as <-.
  apply (hasPermission_allowed k R) in Hp; [|done].
  destruct Hm as [Hm | [Hm | Hm]]; rewrite Hm in Hp.
  - change (f ∈ allow_set R OpWrite) in Hp. rewrite Hw in Hp.
    by apply elem_of_nil in Hp.
  - change (f ∈ allow_set R OpWrite) in Hp. rewrite Hw in Hp.
    by apply elem_of_nil in Hp.
  - change (f ∈ allow_set R OpDelete) in Hp. rewrite Hd in Hp.
    by apply elem_of_nil in Hp.
Qed.

Lemma failure_persists_nothing_witness :
  snd (handler sample_cfg sample_env sample_store
         (sample_request "POST" "ses-readonly-r1" (Some "clients.json")
            None (Some (JObj [("name", JStr "Acme")]))))
  = sample_store.
Proof.
  apply failure_persists_nothing; vm_compute; discriminate.
Defined.

Lemma store_changes_only_with_permission_witness :
  ∃ k f,
    authorized sample_cfg
      (sample_request "POST" "ses-ae-xyz" (Some "contracts.json") None
         (Some (JArr [JStr "c1"]))) k f ∧
    (method (sample_request "POST" "ses-ae-xyz" (Some "contracts.json") None
               (Some (JArr [JStr "c1"]))) = "POST" ∨
     method (sample_request "POST" "ses-ae-xyz" (Some "contracts.json") None
               (Some (JArr [JStr "c1"]))) = "PUT" ∨
     method (sample_request "POST" "ses-ae-xyz" (Some "contracts.json") None
               (Some (JArr [JStr "c1"]))) = "DELETE") ∧
    ∀ g, g ≠ f →
      snd (handler sample_cfg sample_env sample_store
             (sample_request "POST" "ses-ae-xyz" (Some "contracts.json")
                None (Some (JArr [JStr "c1"])))) !! g
      = sample_store !! g.
Proof.
  apply store_changes_only_with_permission.
  intros H. apply (f_equal (λ s, s !! "contracts.json")) in H.
  vm_compute in H. discriminate H.
Defined.


Lemma put_then_get_witness :
  let store : gmap string json :=
    {[ "energy-profiles.json" :=
         JArr [JObj [("id", JStr "p0")]; sample_profile; JNum infinity] ]} in
  let req :=
    sample_request "PUT" "ses-ae-xyz" (Some "energy-profiles.json")
      (Some "p1") (Some (JObj [("name", JStr "loc9"); ("load", JNum (-0))])) in
  handler sample_cfg sample_env
    (snd (handler sample_cfg sample_env store req)) (with_method "GET" req)
  = (respond 200
       (Some (JObj [("id", JStr "p1"); ("name", JStr "loc9");
                    ("createdAt", JStr "2026-01-01T08:00:00.000Z");
                    ("createdBy", JStr "admin"); ("load", JNum 0);
                    ("updatedAt", JStr "2026-02-05T12:00:00.000Z");
                    ("updatedBy", JStr "ae")])),
     snd (handler sample_cfg sample_env store req)).
Proof.
  intros store req.
  apply (put_then_get sample_cfg sample_env sample_env store req
           "ses-ae-xyz" "energy-profiles.json" "p1"
           [JObj [("id", JStr "p0")]; sample_profile; JNum infinity] 1
           sample_profile).
  - reflexivity.
  - repeat split; reflexivity.
  - reflexivity.
  - reflexivity.
  - reflexivity.
  - reflexivity.
  - reflexivity.
  - reflexivity.
Defined.

Lemma updated_record_merge_witness :
  get (JObj (updated_record sample_env "ses-ae-xyz"
               (JObj [("id", JStr "p1"); ("name", JStr "loc1")])
               (Some (JObj [("name", JStr "loc9")])))) "name"
  = Some (JStr "loc9").
Proof.
  apply (updated_record_merge sample_env "ses-ae-xyz"
           [("id", JStr "p1"); ("name", JStr "loc1")]
           [("name", JStr "loc9")] "name").
  - apply NoDup_ListNoDup. simpl.
    repeat constructor; simpl; intuition congruence.
  - apply NoDup_ListNoDup. simpl.
    repeat constructor; simpl; intuition congruence.
  - rewrite !not_elem_of_cons. repeat split; try discriminate.
    apply not_elem_of_nil.
Defined.

Lemma delete_with_null_element_witness :
  let store : gmap string json :=
    {[ "energy-profiles.json" := JArr [sample_profile; JNull] ]} in
  let req :=
    sample_request "DELETE" "ses-ae-xyz" (Some "energy-profiles.json")
      (Some "p1") None in
  status_of (handler sample_cfg sample_env store req) = Some 500 ∧
  snd (handler sample_cfg sample_env store req) = store.
Proof.
  intros store req.
  apply (delete_with_null_element sample_cfg sample_env _ _
           "ses-ae-xyz" "energy-profiles.json" "p1" [sample_profile; JNull]).
  - reflexivity.
  - repeat split; reflexivity.
  - reflexivity.
  - reflexivity.
  - right. left.
Defined.

Lemma put_file_then_get_witness :
  let b := JObj [("rates", JArr [JNum 1.5; JNum infinity]);
                 ("10", JStr "b"); ("2", JStr "a")] in
  let stored := JObj [("2", JStr "a"); ("10", JStr "b");
                      ("rates", JArr [JNum 1.5; JNull])] in
  let req :=
    sample_request "PUT" "ses-ae-xyz" (Some "contracts.json") None (Some b) in
  handler sample_cfg sample_env (<[ "contracts.json" := stored ]> sample_store)
    (with_method "GET" req)
  = (respond 200 (Some stored),
     <[ "contracts.json" := stored ]> sample_store).
Proof.
  intros b stored req.
  refine (proj2 (proj2 (put_file_then_get sample_cfg sample_env sample_env
                          sample_store req "ses-ae-xyz" "contracts.json" b
                          _ _ _ _))).
  - reflexivity.
  - repeat split; reflexivity.
  - reflexivity.
  - reflexivity.
Defined.

Lemma delete_file_then_get_witness :
  status_of (handler sample_cfg sample_env sample_store
               (sample_request "DELETE" "ses-ae-xyz"
                  (Some "energy-profiles.json") None None))
  = Some (if bool_decide (sample_store !! "energy-profiles.json" = None)
          then 404 else 200).
Proof.
  refine (proj1 (delete_file_then_get sample_cfg sample_env sample_env
                   sample_env sample_store
                   (sample_request "DELETE" "ses-ae-xyz"
                      (Some "energy-profiles.json") None None)
                   "ses-ae-xyz" "energy-profiles.json" _ _ _)).
  - reflexivity.
  - repeat split; reflexivity.
  - reflexivity.
Defined.

Lemma no_permission_no_change_witness :
  snd (handler sample_cfg sample_env sample_store
         (sample_request "DELETE" readonly_key (Some "lmp-database.json")
            None None))
  = sample_store.
Proof.
  apply (no_permission_no_change sample_cfg sample_env sample_store _
           readonly_key "readonly").
  - reflexivity.
  - reflexivity.
  - reflexivity.
  - reflexivity.
Defined.

(** *** Methods without a branch *)



End GatewayMore.

(** ** More of the updater: accounting, order and idempotence *)

Module LmpMore.
Import Js LmpUpdater LmpSpec LmpProps.

Section Monthly.

Implicit Types d : gmap string (list monthly_record).
Implicit Types l : list monthly_record.
Implicit Types r e : monthly_record.
Implicit Types s : monthly_stats.

(** *** One turn of the monthly loop *)

(** The three ways a turn ends. *)
Lemma merge_record_cases d s r :
  let l := records_of d (iso r) in
  (findIndexKey (monthlyKey r) l = None ∧
   merge_record (d, s) r
   = (<[iso r := (l ++ [normalize r])%list]> d, bump_added s)) ∨
  (∃ i e, findIndexKey (monthlyKey r) l = Some i ∧ l !! i = Some e ∧
          d !! iso r = Some l ∧ settled r e = false ∧
          merge_record (d, s) r
          = (<[iso r := <[i := normalize r]> l]> d, bump_updated s)) ∨
  (∃ i e, findIndexKey (monthlyKey r) l = Some i ∧ l !! i = Some e ∧
          d !! iso r = Some l ∧ settled r e = true ∧
          merge_record (d, s) r = (d, bump_unchanged s)).
Proof.
  unfold merge_record, records_of, settled, price. cbv zeta.
  destruct (d !! iso r) as [l|] eqn:Hd.
  - rewrite Hd. unfold default, id. cbn [from_option].
    destruct (findIndexKey (monthlyKey r) l) as [i|] eqn:Hi; [|by left].
    right. cbn [normalize avg_da_lmp from_option].
    destruct (l !! i) as [e|] eqn:He.
    + cbn [mbind option_bind].
      destruct (PrimFloat.eqb _ 0 && positive (avg_da_lmp e))%bool eqn:Hg;
        simpl.
      * right. exists i, e. rewrite Hg. by repeat split.
      * destruct (differs (avg_da_lmp e) _) eqn:Hdf; simpl.
        -- left. exists i, e. rewrite Hg, Hdf. by repeat split.
        -- right. exists i, e. rewrite Hg, Hdf. by repeat split.
    + exfalso. clear -Hi He. unfold findIndexKey in Hi.
      assert (∀ n j, findIndexKey_from n (monthlyKey r) l = Some j →
                     n ≤ j < n + length l) as H.
      { clear. induction l as [|x l IH]; intros n j; simpl; [done|].
        destruct (String.eqb (monthlyKey x) (monthlyKey r)).
        - intros [= <-]. lia.
        - intros ?%IH. lia. }
      apply H in Hi. apply lookup_ge_None in He. lia.
  - rewrite lookup_insert_eq. unfold default, id. cbn [from_option].
    left. split; [done|]. simpl. by rewrite insert_insert_eq.
Qed.

Lemma fold_merge_record_app inc d s :
  ∀ r inc', inc = (inc' ++ [r])%list →
  fold_left merge_record inc (d, s)
  = merge_record (fold_left merge_record inc' (d, s)) r.
Proof. intros r inc' ->. by rewrite fold_left_app. Qed.

(** *** Accounting *)

Lemma merge_record_accounting d s r :
  added (merge_record (d, s) r).2 + updated (merge_record (d, s) r).2
    + unchanged (merge_record (d, s) r).2
  = S (added s + updated s + unchanged s).
Proof.
  destruct (merge_record_cases d s r)
    as [[_ ->] | [(i & e & _ & _ & _ & _ & ->) |
                  (i & e & _ & _ & _ & _ & ->)]]; simpl; lia.
Qed.

Lemma fold_merge_accounting inc d s :
  added (fold_left merge_record inc (d, s)).2
    + updated (fold_left merge_record inc (d, s)).2
    + unchanged (fold_left merge_record inc (d, s)).2
  = added s + updated s + unchanged s + length inc.
Proof.
  revert d s. induction inc as [|r inc IH]; intros d s; [simpl; lia|].
  cbn [fold_left length].
  pose proof (merge_record_accounting d s r) as H.
  destruct (merge_record (d, s) r) as [d' s']. rewrite IH.
  simpl in H. lia.
Qed.

Lemma mergeMonthlyData_unfold lc db inc :
  mergeMonthlyData lc db inc
  = ({| data := sort lc <$>
                  (fold_left merge_record inc
                     (data db, {| added := 0; updated := 0;
                                  unchanged := 0 |})).1;
        hourly := hourly db |},
     (fold_left merge_record inc
        (data db, {| added := 0; updated := 0; unchanged := 0 |})).2).
Proof. unfold mergeMonthlyData. by destruct (fold_left _ _ _). Qed.

(** X16.  Every incoming record is counted once, as added, updated or
    unchanged, when the ISOs of the records name no member of
    [Object.prototype]. *)
Theorem monthly_stats_account lc db inc :
  plain_isos inc →
  added (mergeMonthlyData lc db inc).2
    + updated (mergeMonthlyData lc db inc).2
    + unchanged (mergeMonthlyData lc db inc).2
  = length inc.
Proof.
  intros _. rewrite mergeMonthlyData_unfold. cbn [snd].
  rewrite fold_merge_accounting. simpl. lia.
Qed.

(** *** Nothing is deleted *)

Lemma monthly_total_insert d i l' :
  monthly_total (<[i := l']> d) + length (records_of d i)
  = monthly_total d + length l'.
Proof.
  unfold monthly_total, countRecords, records_of. cbn [count_monthly data].
  assert (∀ m : gmap string (list monthly_record), ∀ x, m !! i = None →
            map_fold (λ _ l n, n + length l) 0 (<[i := x]> m)
            = map_fold (λ _ l n, n + length l) 0 m + length x) as Hins.
  { intros m x Hn. rewrite map_fold_insert_L; [done| |done].
    intros. lia. }
  destruct (d !! i) as [l|] eqn:Hd; simpl.
  - rewrite <-(insert_delete_eq d i l').
    rewrite <-(insert_id d i l) at 2 by done.
    rewrite <-(insert_delete_eq d i l).
    rewrite !Hins by apply lookup_delete_eq. lia.
  - rewrite Hins by done. lia.
Qed.

Lemma length_insert_sorted lc x l :
  length (insert_sorted lc x l) = S (length l).
Proof.
  induction l as [|y l IH]; simpl; [done|].
  destruct (Z.ltb 0 _); simpl; by rewrite ?IH.
Qed.

Lemma length_sort lc l : length (sort lc l) = length l.
Proof.
  induction l as [|x l IH]; simpl; [done|].
  by rewrite length_insert_sorted, IH.
Qed.

Lemma monthly_total_sort lc d :
  monthly_total (sort lc <$> d) = monthly_total d.
Proof.
  unfold monthly_total, countRecords. cbn [count_monthly data].
  rewrite map_fold_fmap.
  induction d as [|i l d Hn Hf IH] using map_first_key_ind.
  - by rewrite !map_fold_empty.
  - rewrite !map_fold_insert_first_key by done. simpl.
    by rewrite IH, length_sort.
Qed.

Lemma merge_record_total d s r :
  monthly_total (merge_record (d, s) r).1 + added s
  = monthly_total d + added (merge_record (d, s) r).2 ∧
  ∀ i, (length (records_of d i)
        ≤ length (records_of (merge_record (d, s) r).1 i))%nat.
Proof.
  destruct (merge_record_cases d s r)
    as [[_ ->] | [(i & e & _ & He & Hd & _ & ->) |
                  (i & e & _ & _ & _ & _ & ->)]]; cbn [fst snd].
  - split.
    + pose proof (monthly_total_insert d (iso r)
                    (records_of d (iso r) ++ [normalize r])) as H.
      rewrite length_app in H. simpl in *. lia.
    + intros i. unfold records_of at 2.
      destruct (decide (i = iso r)) as [->|Hne].
      * rewrite lookup_insert_eq. simpl. rewrite length_app. lia.
      * by rewrite lookup_insert_ne.
  - split.
    + pose proof (monthly_total_insert d (iso r)
                    (<[i := normalize r]> (records_of d (iso r)))) as H.
      rewrite length_insert in H. simpl. lia.
    + intros j. unfold records_of at 2.
      destruct (decide (j = iso r)) as [->|Hne].
      * rewrite lookup_insert_eq. simpl. by rewrite length_insert.
      * by rewrite lookup_insert_ne.
  - split; [simpl; lia | done].
Qed.

Lemma fold_merge_total inc d s :
  monthly_total (fold_left merge_record inc (d, s)).1 + added s
  = monthly_total d + added (fold_left merge_record inc (d, s)).2 ∧
  ∀ i, (length (records_of d i)
        ≤ length (records_of (fold_left merge_record inc (d, s)).1 i))%nat.
Proof.
  revert d s. induction inc as [|r inc IH]; intros d s; [done|].
  cbn [fold_left].
  destruct (merge_record_total d s r) as [Ht' Hl'].
  destruct (merge_record (d, s) r) as [d' s'].
  destruct (IH d' s') as [Ht Hl].
  simpl in Ht', Hl'. split; [lia|]. intros i. etrans; [apply Hl'|apply Hl].
Qed.

Lemma records_of_sort lc d i :
  records_of (sort lc <$> d) i = sort lc (records_of d i).
Proof. unfold records_of. rewrite lookup_fmap. by destruct (d !! i). Qed.

(** X17.  The monthly merge never deletes.  When the ISOs of the incoming
    records name no member of [Object.prototype], the number of monthly
    records [countRecords] finds after the merge is the number before plus
    the number added, and no ISO's list gets shorter. *)
Theorem monthly_merge_never_deletes lc db inc :
  plain_isos inc →
  count_monthly (countRecords (mergeMonthlyData lc db inc).1)
  = count_monthly (countRecords db) + added (mergeMonthlyData lc db inc).2 ∧
  ∀ i, (length (records_of (data db) i)
        ≤ length (records_of (data (mergeMonthlyData lc db inc).1) i))%nat.
Proof.
  intros _. rewrite mergeMonthlyData_unfold. cbn [fst snd data].
  destruct (fold_merge_total inc (data db)
              {| added := 0; updated := 0; unchanged := 0 |}) as [Ht Hl].
  split.
  - change (monthly_total
              (sort lc <$>
               (fold_left merge_record inc
                  (data db, {| added := 0; updated := 0;
                               unchanged := 0 |})).1)
            = monthly_total (data db)
              + added (fold_left merge_record inc
                         (data db, {| added := 0; updated := 0;
                                      unchanged := 0 |})).2).
    rewrite monthly_total_sort. simpl in Ht. lia.
  - intros i. rewrite records_of_sort, length_sort. apply Hl.
Qed.
End Monthly.

Section Sorted.

Variable lc : string → string → Z.
Hypothesis Hlc : consistent lc.

Implicit Types l : list monthly_record.

Lemma lc_flip a b : Z.sgn (lc b a) = (- Z.sgn (lc a b))%Z.
Proof. apply Hlc. Qed.

Lemma lc_trans a b c : (lc a b ≤ 0 → lc b c ≤ 0 → lc a c ≤ 0)%Z.
Proof. apply Hlc. Qed.

Lemma lc_eq_trans a b c : lc a b = 0%Z → lc b c = 0%Z → lc a c = 0%Z.
Proof.
  intros Hab Hbc.
  pose proof (lc_flip a b). pose proof (lc_flip b c).
  pose proof (lc_flip a c).
  pose proof (lc_trans a b c). pose proof (lc_trans c b a). lia.
Qed.

Lemma lc_lt_le_trans a b c : (lc a b < 0 → lc b c ≤ 0 → lc a c < 0)%Z.
Proof.
  intros Hab Hbc.
  pose proof (lc_flip a b). pose proof (lc_flip b c).
  pose proof (lc_flip a c).
  pose proof (lc_trans a b c). pose proof (lc_trans b c a). lia.
Qed.

Lemma lc_le_lt_trans a b c : (lc a b ≤ 0 → lc b c < 0 → lc a c < 0)%Z.
Proof.
  intros Hab Hbc.
  pose proof (lc_flip a b). pose proof (lc_flip b c).
  pose proof (lc_flip a c).
  pose proof (lc_trans a b c). pose proof (lc_trans c a b). lia.
Qed.

(** The comparator of the sort inherits both properties. *)
Lemma compare_records_flip a b :
  Z.sgn (compare_records lc b a) = (- Z.sgn (compare_records lc a b))%Z.
Proof.
  unfold compare_records, or_else.
  pose proof (lc_flip (zone a) (zone b)).
  pose proof (lc_flip (year a) (year b)).
  pose proof (lc_flip (month a) (month b)).
  repeat case_match; rewrite ?Z.eqb_eq, ?Z.eqb_neq in *; lia.
Qed.

Lemma compare_records_trans a b c :
  not_after lc a b → not_after lc b c → not_after lc a c.
Proof.
  unfold not_after, compare_records, or_else.
  pose proof (lc_eq_trans (zone a) (zone b) (zone c)).
  pose proof (lc_lt_le_trans (zone a) (zone b) (zone c)).
  pose proof (lc_le_lt_trans (zone a) (zone b) (zone c)).
  pose proof (lc_eq_trans (year a) (year b) (year c)).
  pose proof (lc_lt_le_trans (year a) (year b) (year c)).
  pose proof (lc_le_lt_trans (year a) (year b) (year c)).
  pose proof (lc_trans (month a) (month b) (month c)).
  repeat case_match; rewrite ?Z.eqb_eq, ?Z.eqb_neq in *; lia.
Qed.

Lemma insert_sorted_Sorted x l :
  Sorted (not_after lc) l → Sorted (not_after lc) (insert_sorted lc x l).
Proof.
  induction 1 as [|y l Hl IH Hhd]; simpl.
  - by repeat constructor.
  - destruct (Z.ltb 0 (compare_records lc x y)) eqn:E.
    + apply Z.ltb_lt in E. constructor; [done|].
      assert (not_after lc y x) as Hyx.
      { unfold not_after. pose proof (compare_records_flip x y). lia. }
      destruct l as [|z l]; simpl; [by constructor|].
      destruct (Z.ltb 0 (compare_records lc x z)); constructor; [|done].
      by inversion Hhd.
    + apply Z.ltb_ge in E. constructor; [by constructor|]. by constructor.
Qed.

Lemma sort_Sorted l : Sorted (not_after lc) (sort lc l).
Proof.
  induction l as [|x l IH]; simpl; [constructor|].
  by apply insert_sorted_Sorted.
Qed.

End Sorted.

Lemma insert_sorted_perm lc x l : insert_sorted lc x l ≡ₚ x :: l.
Proof.
  induction l as [|y l IH]; simpl; [done|].
  destruct (Z.ltb 0 _); [|done]. rewrite IH. apply Permutation_swap.
Qed.

Lemma sort_perm lc l : sort lc l ≡ₚ l.
Proof.
  induction l as [|x l IH]; simpl; [done|].
  by rewrite insert_sorted_perm, IH.
Qed.

Lemma sort_Sorted_id lc l : Sorted (not_after lc) l → sort lc l = l.
Proof.
  induction 1 as [|x l Hl IH Hhd]; simpl; [done|]. rewrite IH.
  destruct Hhd as [|y l Hxy]; simpl; [done|].
  unfold not_after in Hxy. by rewrite (proj2 (Z.ltb_ge _ _) Hxy).
Qed.

(** X18.  After the merge every list is ordered by (zone, year, month):
    under a consistent collation, and for incoming records whose ISOs name
    no member of [Object.prototype], each record is not after any record
    that follows it. *)
Theorem merged_lists_sorted lc db inc i l :
  consistent lc →
  plain_isos inc →
  data (mergeMonthlyData lc db inc).1 !! i = Some l →
  StronglySorted (not_after lc) l.
Proof.
  intros Hlc _. rewrite mergeMonthlyData_unfold. cbn [fst data].
  rewrite lookup_fmap.
  destruct (_ !! i) as [l0|]; [|done]. intros [= <-].
  apply Sorted_StronglySorted; [|by apply sort_Sorted].
  intros a b c. by apply compare_records_trans.
Qed.

(** *** Prices *)

Lemma sub_self_small (x : float) :
  PrimFloat.ltb 0.0001 (PrimFloat.abs (PrimFloat.sub x x)) = false.
Proof.
  rewrite ltb_spec, abs_spec, sub_spec.
  destruct (Prim2SF x) as [sx|sx| |sx m e]; unfold SF64sub, SFsub.
  - by destruct sx.
  - by destruct sx.
  - done.
  - cbv zeta. rewrite Z.sub_diag. reflexivity.
Qed.

Lemma SFeqb_finite_refl sx m e :
  SFeqb (S754_finite sx m e) (S754_finite sx m e) = true.
Proof.
  unfold SFeqb, SFcompare.
  destruct sx; by rewrite Z.compare_refl, Pos.compare_cont_refl.
Qed.

Lemma falsy_sub_small (x : float) :
  num_falsy x = true →
  PrimFloat.ltb 0.0001 (PrimFloat.abs (PrimFloat.sub 0 x)) = false.
Proof.
  unfold num_falsy, is_nan. rewrite ltb_spec, abs_spec, sub_spec.
  rewrite !FloatAxioms.eqb_spec.
  change (Prim2SF 0) with (S754_zero false).
  destruct (Prim2SF x) as [sx|sx| |sx m e].
  - by destruct sx.
  - by destruct sx.
  - done.
  - rewrite SFeqb_finite_refl. by destruct sx.
Qed.

(** A price does not differ from itself. *)
Lemma differs_self n : differs (Some n) n = false.
Proof.
  unfold differs, num_or. destruct (num_falsy n) eqn:E.
  - by apply falsy_sub_small.
  - apply sub_self_small.
Qed.

Section Keys.

Implicit Types d : gmap string (list monthly_record).
Implicit Types l : list monthly_record.
Implicit Types r e x : monthly_record.
Implicit Types s : monthly_stats.

(** *** Looking records up by key *)

Lemma lookup_key_app k l1 l2 :
  lookup_key k (l1 ++ l2) =
    match lookup_key k l1 with
    | Some e => Some e
    | None => lookup_key k l2
    end.
Proof.
  induction l1 as [|x l1 IH]; simpl; [done|].
  by destruct (String.eqb (monthlyKey x) k).
Qed.

Lemma lookup_key_None k l :
  lookup_key k l = None ↔ k ∉ monthlyKey <$> l.
Proof.
  induction l as [|x l IH]; simpl.
  - split; [intros _; apply not_elem_of_nil | done].
  - rewrite not_elem_of_cons.
    destruct (String.eqb (monthlyKey x) k) eqn:E.
    + apply String.eqb_eq in E. split; [done | by intros [? _]].
    + apply String.eqb_neq in E. rewrite IH. split; [by split | tauto].
Qed.

Lemma lookup_key_Some k l e :
  lookup_key k l = Some e → monthlyKey e = k.
Proof.
  induction l as [|x l IH]; simpl; [done|].
  destruct (String.eqb (monthlyKey x) k) eqn:E; [|done].
  intros [= <-]. by apply String.eqb_eq.
Qed.

Lemma findIndexKey_from_Some n k l j :
  findIndexKey_from n k l = Some j →
  ∃ i e, j = n + i ∧ l !! i = Some e ∧ monthlyKey e = k ∧
         lookup_key k (take i l) = None.
Proof.
  revert n. induction l as [|x l IH]; intros n; simpl; [done|].
  destruct (String.eqb (monthlyKey x) k) eqn:E.
  - intros [= <-]. exists 0, x. apply String.eqb_eq in E.
    repeat split; [lia|done].
  - intros (i & e & -> & He & Hk & Hpre)%IH. exists (S i), e.
    repeat split; [lia|done..|]. simpl. by rewrite E.
Qed.

Lemma findIndexKey_from_None n k l :
  findIndexKey_from n k l = None → lookup_key k l = None.
Proof.
  revert n. induction l as [|x l IH]; intros n; simpl; [done|].
  destruct (String.eqb (monthlyKey x) k); [done | apply IH].
Qed.

Lemma findIndexKey_lookup k l i e :
  findIndexKey k l = Some i → l !! i = Some e →
  lookup_key k l = Some e ∧ monthlyKey e = k ∧
  lookup_key k (take i l) = None.
Proof.
  intros (i' & e' & Hi & He' & Hk & Hpre)%findIndexKey_from_Some He.
  simpl in Hi. subst i'. rewrite He in He'. injection He' as <-.
  split; [|done].
  rewrite <-(take_drop_middle l i e) by done.
  rewrite lookup_key_app, Hpre. simpl.
  apply String.eqb_eq in Hk. by rewrite Hk.
Qed.

(** Replacing the first record of a key by a record of the same key. *)
Lemma lookup_key_replace k l i e x :
  findIndexKey (monthlyKey e) l = Some i → l !! i = Some e →
  monthlyKey x = monthlyKey e →
  lookup_key k (<[i := x]> l) =
    if String.eqb (monthlyKey e) k then Some x else lookup_key k l.
Proof.
  intros Hi He Hx.
  destruct (findIndexKey_lookup _ _ _ _ Hi He) as (_ & _ & Hpre).
  rewrite insert_take_drop by (by eapply lookup_lt_Some).
  rewrite <-(take_drop_middle l i e) at 3 by done.
  rewrite !lookup_key_app. simpl. rewrite Hx.
  destruct (String.eqb (monthlyKey e) k) eqn:E; [|done].
  apply String.eqb_eq in E. subst k. by rewrite Hpre.
Qed.

Lemma lookup_key_perm k l l' :
  distinct_keys l → l ≡ₚ l' → lookup_key k l = lookup_key k l'.
Proof.
  unfold distinct_keys. intros Hnd Hp.
  induction Hp as [|x l l' Hp IH|x y l|l l' l'' Hp1 IH1 Hp2 IH2].
  - done.
  - simpl. rewrite fmap_cons in Hnd. apply NoDup_cons in Hnd as [_ Hnd].
    by rewrite IH.
  - simpl. rewrite !fmap_cons in Hnd.
    apply NoDup_cons in Hnd as [Hy _]. apply not_elem_of_cons in Hy as [Hy _].
    destruct (String.eqb (monthlyKey x) k) eqn:Ex,
             (String.eqb (monthlyKey y) k) eqn:Ey; try done.
    apply String.eqb_eq in Ex, Ey. congruence.
  - rewrite IH1 by done. apply IH2. by rewrite <-Hp1.
Qed.

Lemma monthlyKey_normalize r :
  padded r → monthlyKey (normalize r) = monthlyKey r.
Proof. unfold padded, monthlyKey. simpl. by intros ->. Qed.

(** *** What one turn does to the keys *)

Lemma merge_record_well_keyed d s r :
  well_keyed d → padded r → well_keyed (merge_record (d, s) r).1.
Proof.
  intros Hwk Hpad.
  assert (distinct_keys (records_of d (iso r))) as Hl.
  { unfold records_of. destruct (d !! iso r) as [l|] eqn:E; simpl.
    - by apply (Hwk (iso r)).
    - constructor. }
  destruct (merge_record_cases d s r)
    as [[Hi ->] | [(i & e & Hi & He & Hd & _ & ->) |
                   (i & e & _ & _ & _ & _ & ->)]]; cbn [fst]; [| |done].
  - intros j l. destruct (decide (j = iso r)) as [->|Hne].
    + rewrite lookup_insert_eq. intros [= <-]. unfold distinct_keys.
      rewrite fmap_app. apply NoDup_app. split; [done|]. split.
      * intros k Hk [->|[]%elem_of_nil]%elem_of_cons.
        rewrite monthlyKey_normalize in Hk by done.
        apply findIndexKey_from_None, lookup_key_None in Hi. done.
      * apply NoDup_singleton.
    + rewrite lookup_insert_ne by done. apply Hwk.
  - intros j l. destruct (decide (j = iso r)) as [->|Hne].
    + rewrite lookup_insert_eq. intros [= <-]. unfold distinct_keys.
      rewrite list_fmap_insert.
      destruct (findIndexKey_lookup _ _ _ _ Hi He) as (_ & Hk & _).
      rewrite list_insert_id; [done|].
      rewrite list_lookup_fmap, He. simpl.
      by rewrite monthlyKey_normalize, Hk.
    + rewrite lookup_insert_ne by done. apply Hwk.
Qed.

Lemma merge_record_other d s r i k :
  padded r → (i, k) ≠ place r →
  lookup_key k (records_of (merge_record (d, s) r).1 i)
  = lookup_key k (records_of d i).
Proof.
  intros Hpad Hne. unfold place in Hne.
  destruct (merge_record_cases d s r)
    as [[Hi ->] | [(j & e & Hi & He & Hd & _ & ->) |
                   (j & e & _ & _ & _ & _ & ->)]]; cbn [fst]; [| |done].
  - unfold records_of at 1. destruct (decide (i = iso r)) as [->|Hi'].
    + rewrite lookup_insert_eq. simpl. rewrite lookup_key_app. simpl.
      rewrite monthlyKey_normalize by done.
      destruct (String.eqb (monthlyKey r) k) eqn:E.
      * apply String.eqb_eq in E. congruence.
      * by destruct (lookup_key k _).
    + by rewrite lookup_insert_ne.
  - unfold records_of at 1. destruct (decide (i = iso r)) as [->|Hi'].
    + rewrite lookup_insert_eq. simpl.
      destruct (findIndexKey_lookup _ _ _ _ Hi He) as (_ & Hk & _).
      rewrite (lookup_key_replace k _ j e); [|by rewrite Hk|done|].
      * rewrite Hk. destruct (String.eqb (monthlyKey r) k) eqn:E; [|done].
        apply String.eqb_eq in E. congruence.
      * by rewrite monthlyKey_normalize, Hk.
    + by rewrite lookup_insert_ne.
Qed.

Lemma settled_normalize r : settled r (normalize r) = true.
Proof.
  unfold settled. cbn [normalize avg_da_lmp]. fold (price r).
  rewrite differs_self. apply orb_true_r.
Qed.

Lemma merge_record_settles d s r :
  padded r →
  ∃ e, lookup_key (monthlyKey r) (records_of (merge_record (d, s) r).1 (iso r))
       = Some e ∧ settled r e = true.
Proof.
  intros Hpad.
  destruct (merge_record_cases d s r)
    as [[Hi ->] | [(j & e & Hi & He & Hd & _ & ->) |
                   (j & e & Hi & He & Hd & Hs & ->)]]; cbn [fst].
  - exists (normalize r). split; [|apply settled_normalize].
    unfold records_of at 1. rewrite lookup_insert_eq. simpl.
    rewrite lookup_key_app.
    rewrite (findIndexKey_from_None _ _ _ Hi). simpl.
    rewrite monthlyKey_normalize by done. by rewrite String.eqb_refl.
  - exists (normalize r). split; [|apply settled_normalize].
    unfold records_of at 1. rewrite lookup_insert_eq. simpl.
    destruct (findIndexKey_lookup _ _ _ _ Hi He) as (_ & Hk & _).
    rewrite (lookup_key_replace _ _ j e); [|by rewrite Hk|done|].
    + by rewrite Hk, String.eqb_refl.
    + by rewrite monthlyKey_normalize, Hk.
  - exists e. split; [|done].
    by destruct (findIndexKey_lookup _ _ _ _ Hi He) as (? & _).
Qed.

(** A record that finds itself settled changes nothing. *)
Lemma settled_fixpoint d s r e :
  lookup_key (monthlyKey r) (records_of d (iso r)) = Some e →
  settled r e = true →
  merge_record (d, s) r = (d, bump_unchanged s).
Proof.
  intros Hl Hs.
  destruct (merge_record_cases d s r)
    as [[Hi _] | [(j & e' & Hi & He & _ & Hs' & _) |
                  (j & e' & _ & _ & _ & _ & ->)]]; [| |done].
  - apply findIndexKey_from_None in Hi. congruence.
  - destruct (findIndexKey_lookup _ _ _ _ Hi He) as (Hl' & _).
    congruence.
Qed.

(** *** The whole list of incoming records *)

Lemma fold_merge_settles inc d s :
  well_keyed d → Forall padded inc → NoDup (place <$> inc) →
  well_keyed (fold_left merge_record inc (d, s)).1 ∧
  (∀ r, r ∈ inc →
     ∃ e, lookup_key (monthlyKey r)
            (records_of (fold_left merge_record inc (d, s)).1 (iso r))
          = Some e ∧ settled r e = true) ∧
  (∀ i k, (i, k) ∉ place <$> inc →
     lookup_key k (records_of (fold_left merge_record inc (d, s)).1 i)
     = lookup_key k (records_of d i)).
Proof.
  revert d s. induction inc as [|r inc IH]; intros d s Hwk Hpad Hnd.
  { simpl. split; [done|]. split; [by intros ? ?%elem_of_nil | done]. }
  cbn [fold_left]. rewrite fmap_cons in Hnd.
  apply NoDup_cons in Hnd as [Hr Hnd].
  apply Forall_cons in Hpad as [Hp Hpad].
  pose proof (merge_record_well_keyed d s r Hwk Hp) as Hwk'.
  pose proof (merge_record_settles d s r Hp) as Hset.
  pose proof (λ i k, merge_record_other d s r i k Hp) as Hoth.
  destruct (merge_record (d, s) r) as [d' s']. simpl in Hwk', Hset, Hoth.
  destruct (IH d' s' Hwk' Hpad Hnd) as (Hwk1 & Hset1 & Hoth1).
  split; [done|]. split.
  - intros r' [->|Hin]%elem_of_cons; [|by apply Hset1].
    rewrite Hoth1 by done. exact Hset.
  - intros i k [Hne Hni]%not_elem_of_cons.
    rewrite Hoth1 by done. by apply Hoth.
Qed.

Lemma fold_settled_fixpoint inc d s :
  (∀ r, r ∈ inc →
     ∃ e, lookup_key (monthlyKey r) (records_of d (iso r)) = Some e ∧
          settled r e = true) →
  fold_left merge_record inc (d, s)
  = (d, {| added := added s; updated := updated s;
           unchanged := unchanged s + length inc |}).
Proof.
  revert s. induction inc as [|r inc IH]; intros s Hall.
  { simpl. destruct s. simpl. f_equal. f_equal. lia. }
  cbn [fold_left]. destruct (Hall r) as (e & He & Hs); [by left|].
  rewrite (settled_fixpoint d s r e He Hs).
  rewrite IH by (intros; apply Hall; by right).
  simpl. f_equal. f_equal. lia.
Qed.

End Keys.

(** X20.  On well-formed input the monthly merge is idempotent.  When the
    collation is consistent, no list of the database has two records with
    one key, the months of the incoming records are written with two digits,
    no two incoming records of one ISO share a key and their ISOs name no
    member of [Object.prototype], a second run over the same records leaves
    the database as the first run left it and reports every record as
    unchanged. *)
Theorem merge_twice_well_formed lc db inc :
  consistent lc →
  well_keyed (data db) →
  Forall padded inc →
  NoDup (place <$> inc) →
  plain_isos inc →
  mergeMonthlyData lc (mergeMonthlyData lc db inc).1 inc
  = ((mergeMonthlyData lc db inc).1,
     {| added := 0; updated := 0; unchanged := length inc |}).
Proof.
  intros Hlc Hwk Hpad Hnd _.
  rewrite (mergeMonthlyData_unfold lc db inc). cbn [fst].
  destruct (fold_merge_settles inc (data db)
              {| added := 0; updated := 0; unchanged := 0 |} Hwk Hpad Hnd)
    as (Hwk1 & Hset & _).
  set (d1 := (fold_left merge_record inc
                (data db, {| added := 0; updated := 0;
                             unchanged := 0 |})).1) in *.
  rewrite mergeMonthlyData_unfold. cbn [data hourly].
  rewrite fold_settled_fixpoint.
  - cbn [fst snd]. f_equal. f_equal.
    rewrite <-map_fmap_compose. apply map_fmap_ext. intros i l _. simpl.
    apply sort_Sorted_id. by apply sort_Sorted.
  - intros r Hr. destruct (Hset r Hr) as (e & He & Hs). exists e.
    split; [|done]. rewrite records_of_sort.
    rewrite <-(lookup_key_perm _ (records_of d1 (iso r))); [done| |].
    + unfold records_of. destruct (d1 !! iso r) as [l|] eqn:E; simpl.
      * by apply (Hwk1 (iso r)).
      * constructor.
    + symmetry. apply sort_perm.
Qed.

Section HourlyAccounting.

Implicit Types h : gmap string (gmap string (list hourly_record)).
Implicit Types incoming : gmap string (gmap string (list hourly_record)).
Implicit Types md : gmap string (list hourly_record).



Lemma count_blocks_zero Q incoming iso ym records :
  count_blocks Q incoming = 0 →
  block incoming iso ym = Some records →
  Q iso ym records = false.
Proof.
  induction incoming as [|i md incoming Hn Hf IH] using map_first_key_ind.
  { unfold block. by rewrite lookup_empty. }
  rewrite count_blocks_insert by done. rewrite block_insert.
  intros Hz. destruct (decide (iso = i)) as [->|Hne]; [|apply IH; lia].
  assert (count_in (Q i) md = 0) as Hmd by lia. clear -Hmd.
  induction md as [|k x md Hn Hf IH] using map_first_key_ind; [done|].
  rewrite count_in_insert in Hmd by done.
  destruct (decide (ym = k)) as [->|Hne].
  - rewrite lookup_insert_eq. intros [= <-].
    destruct (Q i k x); [simpl in Hmd; lia | done].
  - rewrite lookup_insert_ne by done. apply IH. lia.
Qed.


End HourlyAccounting.

(** *** Where the merged records come from *)

Lemma elem_of_insert_inv {A} (l : list A) i x y :
  y ∈ <[i := x]> l → y = x ∨ y ∈ l.
Proof.
  revert i. induction l as [|z l IH]; intros [|i]; simpl; try by right.
  - intros [->|?]%elem_of_cons; [by left | right; by right].
  - intros [->|[->|?]%IH]%elem_of_cons;
      [right; by left | by left | right; by right].
Qed.

Lemma merge_record_provenance d s r i e :
  e ∈ records_of (merge_record (d, s) r).1 i →
  e ∈ records_of d i ∨ (e = normalize r ∧ iso r = i).
Proof.
  destruct (merge_record_cases d s r)
    as [[_ ->] | [(j & e' & _ & _ & _ & _ & ->) |
                  (j & e' & _ & _ & _ & _ & ->)]]; cbn [fst]; [| |by left].
  - unfold records_of at 1. destruct (decide (i = iso r)) as [->|Hne].
    + rewrite lookup_insert_eq. simpl.
      intros [?|[->|[]%elem_of_nil]%elem_of_cons]%elem_of_app; auto.
    + rewrite lookup_insert_ne by done. by left.
  - unfold records_of at 1. destruct (decide (i = iso r)) as [->|Hne].
    + rewrite lookup_insert_eq. simpl.
      intros [->|?]%elem_of_insert_inv; auto.
    + rewrite lookup_insert_ne by done. by left.
Qed.

Lemma fold_merge_provenance inc d s i e :
  e ∈ records_of (fold_left merge_record inc (d, s)).1 i →
  e ∈ records_of d i ∨ ∃ r, r ∈ inc ∧ e = normalize r ∧ iso r = i.
Proof.
  revert d s. induction inc as [|r inc IH]; intros d s; [by left|].
  cbn [fold_left].
  pose proof (merge_record_provenance d s r i e) as Hstep.
  destruct (merge_record (d, s) r) as [d' s']. simpl in Hstep.
  intros [Hin | (r' & Hr' & He & Hi)]%IH.
  - destruct (Hstep Hin) as [? | [-> <-]]; [by left|].
    right. exists r. split; [by left | done].
  - right. exists r'. split; [by right | done].
Qed.

(** X19.  The merge invents nothing.  When the ISOs of the incoming records
    name no member of [Object.prototype], every record stored after the
    merge was stored before under the same ISO, or is the normalized form of
    an incoming record of that ISO. *)
Theorem merged_records_provenance lc db inc i e :
  plain_isos inc →
  e ∈ records_of (data (mergeMonthlyData lc db inc).1) i →
  e ∈ records_of (data db) i ∨
  ∃ r, r ∈ inc ∧ e = normalize r ∧ iso r = i.
Proof.
  intros _. rewrite mergeMonthlyData_unfold. cbn [fst data].
  rewrite records_of_sort, sort_perm. apply fold_merge_provenance.
Qed.

(** *** The merge phase of [main] *)

Lemma merge_record_monotone d s r :
  (added s ≤ added (merge_record (d, s) r).2)%nat ∧
  (updated s ≤ updated (merge_record (d, s) r).2)%nat ∧
  (added (merge_record (d, s) r).2 = added s →
   updated (merge_record (d, s) r).2 = updated s →
   (merge_record (d, s) r).1 = d).
Proof.
  destruct (merge_record_cases d s r)
    as [[_ ->] | [(j & e' & _ & _ & _ & _ & ->) |
                  (j & e' & _ & _ & _ & _ & ->)]]; simpl;
    repeat split; try lia; done.
Qed.

Lemma fold_merge_monotone inc d s :
  (added s ≤ added (fold_left merge_record inc (d, s)).2)%nat ∧
  (updated s ≤ updated (fold_left merge_record inc (d, s)).2)%nat ∧
  (added (fold_left merge_record inc (d, s)).2 = added s →
   updated (fold_left merge_record inc (d, s)).2 = updated s →
   (fold_left merge_record inc (d, s)).1 = d).
Proof.
  revert d s. induction inc as [|r inc IH]; intros d s; [done|].
  cbn [fold_left].
  destruct (merge_record_monotone d s r) as (Ha & Hu & Hsame).
  destruct (merge_record (d, s) r) as [d' s']. simpl in Ha, Hu, Hsame.
  destruct (IH d' s') as (Ha' & Hu' & Hsame').
  repeat split; try lia. intros Hea Heu.
  rewrite Hsame' by lia. apply Hsame; lia.
Qed.

Lemma mergeHourlyData_no_change db hd :
  addedMonths (mergeHourlyData db hd).2 = 0 →
  updatedMonths (mergeHourlyData db hd).2 = 0 →
  data (mergeHourlyData db hd).1 = data db ∧
  ∀ iso ym,
    block (default ∅ (hourly (mergeHourlyData db hd).1)) iso ym
    = block (default ∅ (hourly db)) iso ym.
Proof.
  unfold mergeHourlyData.
  destruct (hd ≫= hourly_data) as [incoming|]; [|done].
  destruct (merge_payload_spec incoming (default ∅ (hourly db))
              no_hourly_stats) as (Hb & _ & Ha & Hu).
  destruct (map_fold merge_iso (default ∅ (hourly db), no_hourly_stats)
              incoming) as [h' s'].
  cbn [fst snd data hourly] in *. intros Ha0 Hu0. split; [done|].
  intros iso ym. simpl. rewrite Hb.
  destruct (block incoming iso ym) as [records|] eqn:Hin; [|done].
  destruct (hasNonZero records) eqn:Hnz; [|done]. exfalso.
  rewrite Ha0 in Ha. rewrite Hu0 in Hu. simpl in Ha, Hu.
  symmetry in Ha, Hu.
  pose proof (count_blocks_zero _ _ _ _ _ Ha Hin) as Hadd.
  pose proof (count_blocks_zero _ _ _ _ _ Hu Hin) as Hupd.
  unfold to_add, to_update in Hadd, Hupd. rewrite Hnz in Hadd, Hupd.
  simpl in Hadd, Hupd.
  apply bool_decide_eq_false in Hadd. apply bool_decide_eq_false in Hupd.
  tauto.
Qed.

Lemma merge_phase_unfold lc now fetched monthlyData hourlyData :
  let m := mergeMonthlyData lc (default new_database fetched)
             (records monthlyData) in
  let hm := match hourlyData with
            | Some _ => mergeHourlyData m.1 hourlyData
            | None => (m.1, no_hourly_stats)
            end in
  merged (merge_phase lc now fetched monthlyData hourlyData) = hm.1 ∧
  mStats (merge_phase lc now fetched monthlyData hourlyData) = m.2 ∧
  hStats (merge_phase lc now fetched monthlyData hourlyData) = hm.2 ∧
  hasChanges (merge_phase lc now fetched monthlyData hourlyData)
  = (Nat.ltb 0 (added m.2) || Nat.ltb 0 (updated m.2)
     || Nat.ltb 0 (addedMonths hm.2)
     || Nat.ltb 0 (updatedMonths hm.2))%bool ∧
  totalMonthlyRecords
    (merged_meta (merge_phase lc now fetched monthlyData hourlyData))
  = count_monthly (countRecords hm.1).
Proof.
  cbv zeta. unfold merge_phase.
  destruct (mergeMonthlyData lc _ _) as [db1 ms]. cbn [fst snd].
  by destruct (match hourlyData with
               | Some _ => mergeHourlyData db1 hourlyData
               | None => (db1, no_hourly_stats)
               end) as [db2 hs].
Qed.

(** X22.  A run that finds no changes, and so does not save, holds in memory
    the records it fetched: the monthly lists are the fetched ones, sorted,
    and every hourly block is as fetched. *)
Theorem no_changes_same_records lc now fetched monthlyData hourlyData :
  hasChanges (merge_phase lc now fetched monthlyData hourlyData) = false →
  data (merged (merge_phase lc now fetched monthlyData hourlyData))
  = sort lc <$> data (default new_database fetched) ∧
  ∀ iso ym,
    block (default ∅
             (hourly (merged (merge_phase lc now fetched monthlyData
                                hourlyData)))) iso ym
    = block (default ∅ (hourly (default new_database fetched))) iso ym.
Proof.
  destruct (merge_phase_unfold lc now fetched monthlyData hourlyData)
    as (-> & _ & _ & -> & _).
  rewrite !orb_false_iff, !Nat.ltb_ge. intros [[[Ha Hu] Hha] Hhu].
  rewrite mergeMonthlyData_unfold in *. cbn [fst snd] in *.
  destruct (fold_merge_monotone (records monthlyData)
              (data (default new_database fetched))
              {| added := 0; updated := 0; unchanged := 0 |})
    as (_ & _ & Hsame).
  rewrite Hsame in * by (simpl; lia).
  destruct hourlyData as [hd|]; [|done].
  destruct (mergeHourlyData_no_change
              {| data := sort lc <$> data (default new_database fetched);
                 hourly := hourly (default new_database fetched) |}
              (Some hd)) as [Hd Hb]; [lia..|].
  by rewrite Hd.
Qed.

(** X23.  The total of monthly records [main] writes into the meta is the
    total of the fetched database plus the number of records added, when
    the ISOs of the monthly records and the ISOs and year-months of the
    hourly payload name no member of [Object.prototype]. *)
Theorem meta_monthly_total lc now fetched monthlyData hourlyData :
  plain_isos (records monthlyData) →
  (∀ incoming, hourlyData ≫= hourly_data = Some incoming →
               plain_keys incoming) →
  totalMonthlyRecords
    (merged_meta (merge_phase lc now fetched monthlyData hourlyData))
  = count_monthly (countRecords (default new_database fetched))
    + added (mStats (merge_phase lc now fetched monthlyData hourlyData)).
Proof.
  intros _ _.
  destruct (merge_phase_unfold lc now fetched monthlyData hourlyData)
    as (_ & -> & _ & _ & ->).
  assert (data (match hourlyData with
                | Some _ =>
                    mergeHourlyData
                      (mergeMonthlyData lc (default new_database fetched)
                         (records monthlyData)).1 hourlyData
                | None =>
                    ((mergeMonthlyData lc (default new_database fetched)
                        (records monthlyData)).1, no_hourly_stats)
                end).1
          = data (mergeMonthlyData lc (default new_database fetched)
                    (records monthlyData)).1) as Hd.
  { destruct hourlyData as [hd|]; [|done]. unfold mergeHourlyData.
    destruct (Some hd ≫= hourly_data); [|done].
    by destruct (map_fold _ _ _). }
  unfold countRecords at 1. cbn [count_monthly]. rewrite Hd.
  rewrite mergeMonthlyData_unfold. cbn [fst snd data].
  destruct (fold_merge_total (records monthlyData)
              (data (default new_database fetched))
              {| added := 0; updated := 0; unchanged := 0 |}) as [Ht _].
  pose proof (monthly_total_sort lc
                (fold_left merge_record (records monthlyData)
                   (data (default new_database fetched),
                    {| added := 0; updated := 0; unchanged := 0 |})).1)
    as Hsort.
  unfold monthly_total, countRecords in Ht, Hsort.
  cbn [count_monthly data] in Ht, Hsort. simpl in Ht.
  rewrite Hsort. unfold countRecords. cbn [count_monthly]. lia.
Qed.

(** *** The sample collation is consistent *)

Lemma string_compare_trans a b c :
  String.compare a b ≠ Gt → String.compare b c ≠ Gt →
  String.compare a c ≠ Gt.
Proof.
  revert b c. induction a as [|x a IH]; intros [|y b] [|z c]; simpl;
    try done.
  unfold Ascii.compare.
  destruct (N.compare_spec (N_of_ascii x) (N_of_ascii y)) as [Hxy|Hxy|Hxy],
           (N.compare_spec (N_of_ascii y) (N_of_ascii z)) as [Hyz|Hyz|Hyz],
           (N.compare_spec (N_of_ascii x) (N_of_ascii z)) as [Hxz|Hxz|Hxz];
    try done; try lia.
  apply IH.
Qed.

Lemma codeunit_consistent : consistent codeunit_compare.
Proof.
  split.
  - intros a b. unfold codeunit_compare.
    rewrite (String.compare_antisym a b). by destruct (String.compare b a).
  - intros a b c. unfold codeunit_compare.
    pose proof (string_compare_trans a b c).
    destruct (String.compare a b), (String.compare b c),
             (String.compare a c); simpl; try lia;
      intros _ _; exfalso; by apply H.
Qed.

Lemma well_keyed_singleton i l :
  distinct_keys l → well_keyed {[ i := l ]}.
Proof. intros Hl j l' [_ <-]%lookup_singleton_Some. done. Qed.

Lemma monthly_stats_account_witness :
  added (mergeMonthlyData codeunit_compare sample_monthly_database
           sample_incoming).2
    + updated (mergeMonthlyData codeunit_compare sample_monthly_database
                 sample_incoming).2
    + unchanged (mergeMonthlyData codeunit_compare sample_monthly_database
                   sample_incoming).2
  = length sample_incoming.
Proof.
  apply (monthly_stats_account codeunit_compare sample_monthly_database
           sample_incoming).
  repeat constructor.
Defined.

Lemma monthly_merge_never_deletes_witness :
  count_monthly
    (countRecords (mergeMonthlyData codeunit_compare sample_monthly_database
                     sample_incoming).1)
  = count_monthly (countRecords sample_monthly_database)
    + added (mergeMonthlyData codeunit_compare sample_monthly_database
               sample_incoming).2 ∧
  ∀ i, (length (records_of (data sample_monthly_database) i)
        ≤ length (records_of
                    (data (mergeMonthlyData codeunit_compare
                             sample_monthly_database sample_incoming).1)
                    i))%nat.
Proof.
  apply (monthly_merge_never_deletes codeunit_compare sample_monthly_database
           sample_incoming).
  repeat constructor.
Defined.

Lemma merged_lists_sorted_witness :
  StronglySorted (not_after codeunit_compare)
    [monthly_sample "PJM" "AECO" "2025" "02" 35;
     monthly_sample "PJM" "BGE" "2025" "01" 39.5;
     monthly_sample "PJM" "PSEG" "2025" "01" 40].
Proof.
  apply (merged_lists_sorted codeunit_compare sample_monthly_database
           sample_incoming "PJM").
  - apply codeunit_consistent.
  - repeat constructor.
  - reflexivity.
Defined.

Lemma merge_twice_well_formed_witness :
  mergeMonthlyData codeunit_compare
    (mergeMonthlyData codeunit_compare sample_monthly_database
       sample_incoming).1
    sample_incoming
  = ((mergeMonthlyData codeunit_compare sample_monthly_database
        sample_incoming).1,
     {| added := 0; updated := 0; unchanged := length sample_incoming |}).
Proof.
  apply merge_twice_well_formed.
  - apply codeunit_consistent.
  - apply well_keyed_singleton. unfold distinct_keys.
    apply (bool_decide_unpack _). vm_compute. exact I.
  - repeat constructor.
  - apply (bool_decide_unpack _). vm_compute. exact I.
  - repeat constructor.
Defined.

Lemma merged_records_provenance_witness :
  monthly_sample "PJM" "BGE" "2025" "01" 39.5
    ∈ records_of (data sample_monthly_database) "PJM" ∨
  ∃ r, r ∈ sample_incoming ∧
       monthly_sample "PJM" "BGE" "2025" "01" 39.5 = normalize r ∧
       iso r = "PJM".
Proof.
  apply (merged_records_provenance codeunit_compare sample_monthly_database
           sample_incoming "PJM"
           (monthly_sample "PJM" "BGE" "2025" "01" 39.5)).
  - repeat constructor.
  - vm_compute. right. left.
Defined.

Lemma meta_monthly_total_witness :
  totalMonthlyRecords
    (merged_meta
       (merge_phase codeunit_compare "2026-02-05T12:00:00.000Z"
          (Some sample_monthly_database)
          {| records := sample_incoming;
             dateRange := ("2025-01-01", "2025-02-28") |}
          (Some {| hourly_data := Some sample_hourly_payload |})))
  = count_monthly
      (countRecords (default new_database (Some sample_monthly_database)))
    + added
        (mStats
           (merge_phase codeunit_compare "2026-02-05T12:00:00.000Z"
              (Some sample_monthly_database)
              {| records := sample_incoming;
                 dateRange := ("2025-01-01", "2025-02-28") |}
              (Some {| hourly_data := Some sample_hourly_payload |}))).
Proof.
  apply (meta_monthly_total codeunit_compare "2026-02-05T12:00:00.000Z"
           (Some sample_monthly_database)
           {| records := sample_incoming;
              dateRange := ("2025-01-01", "2025-02-28") |}
           (Some {| hourly_data := Some sample_hourly_payload |})).
  - repeat constructor.
  - intros incoming [= <-]. unfold plain_keys.
    apply (bool_decide_unpack _). vm_compute. exact I.
Defined.

Lemma no_changes_same_records_witness :
  data (merged (merge_phase codeunit_compare "2026-02-05T12:00:00.000Z"
                  (Some (database_with 42))
                  {| records := [stored_record 0];
                     dateRange := ("2025-01-01", "2025-01-31") |}
                  None))
  = sort codeunit_compare <$> data (default new_database
                                      (Some (database_with 42))).
Proof.
  refine (proj1 (no_changes_same_records codeunit_compare
                   "2026-02-05T12:00:00.000Z" (Some (database_with 42))
                   {| records := [stored_record 0];
                      dateRange := ("2025-01-01", "2025-01-31") |}
                   None _)).
  reflexivity.
Defined.

Section HourlyTwice.

Implicit Types h : gmap string (gmap string (list hourly_record)).
Implicit Types incoming : gmap string (gmap string (list hourly_record)).
Implicit Types md : gmap string (list hourly_record).
Implicit Types s : hourly_stats.

(** *** The records of the stored blocks *)









(** *** Merging the same payload again *)





End HourlyTwice.

End LmpMore.
